(** * Chat client: message reconciliation, log mutators and typing guard

    A shallow embedding of the event handlers of the [Chat] page
    (pages/Chat.tsx), of the [Message] type (types.ts) and of the
    recalled-message branch of [MessageBubble].

    Conventions of the embedding:
    - an optional field [f?: T] of a TypeScript interface is an [option T];
      an absent key and [undefined] are both [None];
    - a string is its sequence of code units and [String.length] is the JS
      [length];
    - [new Date(s).getTime()] is a function [getTime : string -> option Z]
      (milliseconds since the epoch, [None] for [NaN]); the handlers are
      defined over any such function, and [isoTime] below reads the strings
      that [toISOString] writes so that the handlers run on concrete logs;
    - React state is a record, one handler runs to completion at a time, and
      what a handler does to the outside (socket emissions, toasts, timers) is
      recorded in that record. *)

From stdpp Require Import base option list strings.
From Stdlib Require Import ZArith Lia Ascii.

Open Scope Z_scope.

(** ** Built-ins of the host language used by the handlers *)

Module JS.

(** [s.substr(start, len)] for non-negative arguments. *)
Definition substr (start len : nat) (s : string) : string :=
  String.substring start len s.

(** [arr.findIndex(p)]; [None] stands for [-1]. *)
Fixpoint findIndex {A} (p : A → bool) (arr : list A) : option nat :=
  match arr with
  | [] => None
  | x :: rest => if p x then Some 0%nat else S <$> findIndex p rest
  end.

(** [arr.some(p)]. *)
Definition some {A} (p : A → bool) (arr : list A) : bool := existsb p arr.

(** [s] is falsy exactly when it is the empty string. *)
Definition truthy (s : string) : bool :=
  match s with EmptyString => false | _ => true end.

(** [!s.trim()] for a string of ASCII characters: [s] holds nothing but
    the white space of that range. [trim] also removes U+00A0, U+FEFF and
    the space separators and line terminators beyond U+00FF, which [isSpace]
    does not count: a statement that needs [blank] to be [!s.trim()] exactly
    asks for an ASCII input. *)
Definition isSpace (c : ascii) : bool :=
  let n := nat_of_ascii c in
  bool_decide (n = 32 ∨ 9 ≤ n ≤ 13)%nat.

Definition blank (s : string) : bool :=
  forallb isSpace (String.list_ascii_of_string s).

(** *** Reading [YYYY-MM-DDTHH:mm:ss.sssZ] *)

Definition digit (c : ascii) : option Z :=
  let n := Z.of_nat (nat_of_ascii c) in
  if (48 <=? n) && (n <=? 57) then Some (n - 48) else None.

Fixpoint digits (acc : Z) (cs : list ascii) : option Z :=
  match cs with
  | [] => Some acc
  | c :: cs' => d ← digit c; digits (10 * acc + d) cs'
  end.

Definition isLeap (y : Z) : bool :=
  ((y mod 4 =? 0) && negb (y mod 100 =? 0)) || (y mod 400 =? 0).

Definition daysInMonth (y m : Z) : Z :=
  if m =? 2 then (if isLeap y then 29 else 28)
  else if (m =? 4) || (m =? 6) || (m =? 9) || (m =? 11) then 30 else 31.

(** Days from 1970-01-01 to the civil date [y-m-d]. *)
Definition daysFromCivil (y m d : Z) : Z :=
  let y' := if m <=? 2 then y - 1 else y in
  let era := y' / 400 in
  let yoe := y' - era * 400 in
  let mp := (m + 9) mod 12 in
  let doy := (153 * mp + 2) / 5 + d - 1 in
  let doe := yoe * 365 + yoe / 4 - yoe / 100 + doy in
  era * 146097 + doe - 719468.

(** [new Date(s).getTime()] on the strings that [toISOString] writes. Any
    other spelling reads as [None] here, also those that [Date] would parse:
    [isoTime] is used in the runs on concrete logs only, whose timestamps are
    all of this form. *)
Definition isoTime (s : string) : option Z :=
  match String.list_ascii_of_string s with
  | [y1; y2; y3; y4; "-"; m1; m2; "-"; d1; d2; "T";
     h1; h2; ":"; n1; n2; ":"; s1; s2; "."; f1; f2; f3; "Z"]%char =>
      y ← digits 0 [y1; y2; y3; y4];
      m ← digits 0 [m1; m2];
      d ← digits 0 [d1; d2];
      h ← digits 0 [h1; h2];
      n ← digits 0 [n1; n2];
      sec ← digits 0 [s1; s2];
      ms ← digits 0 [f1; f2; f3];
      if (1 <=? m) && (m <=? 12) && (1 <=? d) && (d <=? daysInMonth y m)
         && (h <=? 23) && (n <=? 59) && (sec <=? 59)
      then Some ((((daysFromCivil y m d * 24 + h) * 60 + n) * 60 + sec) * 1000 + ms)
      else None
  | _ => None
  end.

End JS.

(** ** Data model (types.ts) *)

Inductive MessageType := text | image | voice.
Inductive Status := sending | sent | error.

Record Deletion := { by_userId : string; deletedAt : string }.

Record Message := {
  _id : option string;
  fromUserId : string;
  toUserId : string;
  content : string;
  messageType : MessageType;
  imageUrl : option string;
  voiceUrl : option string;
  blobUrl : option string;
  voiceDuration : option Z;
  timestamp : string;
  status : option Status;
  isRead : option bool;
  isRecalled : option bool;
  deletedBy : option (list Deletion)
}.

#[global] Instance MessageType_eq_dec : EqDecision MessageType.
Proof. solve_decision. Defined.
#[global] Instance Status_eq_dec : EqDecision Status.
Proof. solve_decision. Defined.
#[global] Instance Deletion_eq_dec : EqDecision Deletion.
Proof. solve_decision. Defined.
#[global] Instance Message_eq_dec : EqDecision Message.
Proof. solve_decision. Defined.

Module User.
Record t := { userId : string; username : string; avatar : option string }.
End User.

Module Friend.
Record t := {
  userId : string;
  username : string;
  avatar : option string;
  unreadCount : option nat;
  lastMessage : option Message
}.
End Friend.

(** [(m._id?.length || 0)] *)
Definition idLength (m : Message) : nat :=
  match _id m with Some s => String.length s | None => 0%nat end.

(** A placeholder identity is one shorter than 20 code units. *)
Definition isPlaceholder (m : Message) : bool := bool_decide (idLength m < 20)%nat.

(** [o.x] of the spread [{ ...a, ...b }] for an optional key [x]. *)
Definition spread {A} (a b : option A) : option A :=
  match b with Some v => Some v | None => a end.

(** ** Log updaters: the functions the handlers pass to [setMessages] *)

Section Log.

(** [user.userId] of the component's props. *)
Variable me : string.
(** [new Date(s).getTime()] *)
Variable getTime : string → option Z.

(** [Math.abs(new Date(a).getTime() - new Date(b).getTime()) < 5000];
    a comparison with [NaN] is false. *)
Definition within5000 (a b : string) : bool :=
  match getTime a, getTime b with
  | Some t1, Some t2 => Z.abs (t1 - t2) <? 5000
  | _, _ => false
  end.

(** The predicate of [prev.findIndex] in [handleReceiveMessage]. *)
Definition optimisticFor (msg m : Message) : bool :=
  bool_decide (content m = content msg)
  && bool_decide (messageType m = messageType msg)
  && bool_decide (idLength m < 20)%nat.

(** [{ ...optimisticMsg, ...msg, status: 'sent', _id: msg._id }] *)
Definition confirmed (optimisticMsg msg : Message) : Message :=
  {| _id := _id msg;
     fromUserId := fromUserId msg;
     toUserId := toUserId msg;
     content := content msg;
     messageType := messageType msg;
     imageUrl := spread (imageUrl optimisticMsg) (imageUrl msg);
     voiceUrl := spread (voiceUrl optimisticMsg) (voiceUrl msg);
     blobUrl := spread (blobUrl optimisticMsg) (blobUrl msg);
     voiceDuration := spread (voiceDuration optimisticMsg) (voiceDuration msg);
     timestamp := timestamp msg;
     status := Some sent;
     isRead := spread (isRead optimisticMsg) (isRead msg);
     isRecalled := spread (isRecalled optimisticMsg) (isRecalled msg);
     deletedBy := spread (deletedBy optimisticMsg) (deletedBy msg) |}.

(** The branch of [handleReceiveMessage] that returns [newMessages]:
    [None] when control falls through to [return [...prev, msg]]. *)
Definition mergeOptimistic (msg : Message) (prev : list Message)
  : option (list Message) :=
  if bool_decide (fromUserId msg = me) then
    optimisticIndex ← JS.findIndex (optimisticFor msg) prev;
    optimisticMsg ← prev !! optimisticIndex;
    if within5000 (timestamp optimisticMsg) (timestamp msg)
    then Some (<[optimisticIndex := confirmed optimisticMsg msg]> prev)
    else None
  else None.

(** The updater of [setMessages] in [handleReceiveMessage]. *)
Definition receiveMessage (msg : Message) (prev : list Message) : list Message :=
  if JS.some (λ m, bool_decide (_id m = _id msg)) prev then prev
  else default (prev ++ [msg]) (mergeOptimistic msg prev).

(** The body of the [map] in [handleMessageSent]. *)
Definition sentMatches (data msg : Message) : bool :=
  bool_decide (fromUserId msg = me)
  && bool_decide (content msg = content data)
  && bool_decide (idLength msg < 20)%nat
  && within5000 (timestamp data) (timestamp msg).

(** [{ ...msg, _id: data._id, timestamp: data.timestamp, status: 'sent' }] *)
Definition acknowledged (msg data : Message) : Message :=
  {| _id := _id data;
     fromUserId := fromUserId msg;
     toUserId := toUserId msg;
     content := content msg;
     messageType := messageType msg;
     imageUrl := imageUrl msg;
     voiceUrl := voiceUrl msg;
     blobUrl := blobUrl msg;
     voiceDuration := voiceDuration msg;
     timestamp := timestamp data;
     status := Some sent;
     isRead := isRead msg;
     isRecalled := isRecalled msg;
     deletedBy := deletedBy msg |}.

(** The updater of [setMessages] in [handleMessageSent]. *)
Definition messageSent (data : Message) (prev : list Message) : list Message :=
  (λ msg, if sentMatches data msg then acknowledged msg data else msg) <$> prev.

(** [{ ...msg, isRecalled: true }] *)
Definition recalled (msg : Message) : Message :=
  {| _id := _id msg;
     fromUserId := fromUserId msg;
     toUserId := toUserId msg;
     content := content msg;
     messageType := messageType msg;
     imageUrl := imageUrl msg;
     voiceUrl := voiceUrl msg;
     blobUrl := blobUrl msg;
     voiceDuration := voiceDuration msg;
     timestamp := timestamp msg;
     status := status msg;
     isRead := isRead msg;
     isRecalled := Some true;
     deletedBy := deletedBy msg |}.

(** The updater shared by [handleMessageRecalled] and [handleRecallMessage]. *)
Definition messageRecalled (messageId : string) (prev : list Message) : list Message :=
  (λ msg, if bool_decide (_id msg = Some messageId) then recalled msg else msg) <$> prev.

(** [{ ...msg, deletedBy: [...(msg.deletedBy || []), { userId, deletedAt }] }] *)
Definition withDeletion (msg : Message) (d : Deletion) : Message :=
  {| _id := _id msg;
     fromUserId := fromUserId msg;
     toUserId := toUserId msg;
     content := content msg;
     messageType := messageType msg;
     imageUrl := imageUrl msg;
     voiceUrl := voiceUrl msg;
     blobUrl := blobUrl msg;
     voiceDuration := voiceDuration msg;
     timestamp := timestamp msg;
     status := status msg;
     isRead := isRead msg;
     isRecalled := isRecalled msg;
     deletedBy := Some (default [] (deletedBy msg) ++ [d]) |}.

(** The updater shared by [handleMessageDeleted] (the actor is the event's
    [deletedBy]) and [handleDeleteMessage] (the actor is the local user). *)
Definition messageDeleted (messageId : string) (d : Deletion) (prev : list Message)
  : list Message :=
  (λ msg, if bool_decide (_id msg = Some messageId) then withDeletion msg d else msg) <$> prev.

(** [{ ...m, isRead: true }] *)
Definition read (m : Message) : Message :=
  {| _id := _id m;
     fromUserId := fromUserId m;
     toUserId := toUserId m;
     content := content m;
     messageType := messageType m;
     imageUrl := imageUrl m;
     voiceUrl := voiceUrl m;
     blobUrl := blobUrl m;
     voiceDuration := voiceDuration m;
     timestamp := timestamp m;
     status := status m;
     isRead := Some true;
     isRecalled := isRecalled m;
     deletedBy := deletedBy m |}.

(** The updater of [setMessages] in [handleMessagesRead]. *)
Definition messagesRead (prev : list Message) : list Message :=
  (λ m, if bool_decide (fromUserId m = me) then read m else m) <$> prev.

End Log.

(** ** The component: state, socket, toasts and timers *)

(** What the client emits on the socket. *)
Module Emit.
Inductive t :=
| join (userId : string)
| sendMessage (msgData : Message)
| typing (fromUserId toUserId : string)
| stopTyping (fromUserId toUserId : string)
| markAsRead (userId friendUserId : string)
| recallMessage (messageId userId : string) (targetUserId : option string)
| deleteMessage (messageId userId : string).
End Emit.

Module Toast.
Inductive kind := success | error | info.
Record t := { message : string; type : kind }.
End Toast.

#[global] Instance Emit_eq_dec : EqDecision Emit.t.
Proof. solve_decision. Defined.
#[global] Instance Toast_kind_eq_dec : EqDecision Toast.kind.
Proof. solve_decision. Defined.
#[global] Instance Toast_eq_dec : EqDecision Toast.t.
Proof. solve_decision. Defined.

(** The two callbacks the typing guard hands to [setTimeout]. *)
Inductive Callback :=
| emitStopTyping (fromUserId toUserId : string)
    (* () => socket.emit('stopTyping', { fromUserId, toUserId }) *)
| clearIsTyping.
    (* () => setIsTyping(false) *)

(** A pending timer: the handle [setTimeout] returned (a positive integer),
    the instant it is due and its callback. *)
Record Timer := { handle : positive; due : Z; callback : Callback }.

(** The state of [Chat] that the handlers below read or write, followed by
    the environment: the clock, the pending timers, everything emitted on the
    socket and every toast shown, oldest first. The friend list, the
    requests, the URL and scrolling are left out. *)
Record Chat := {
  socket : bool;                                (* socket !== null *)
  activeChat : option Friend.t;
  messages : list Message;
  inputText : string;
  isTyping : bool;
  isLoading : bool;
  senderTypingTimeoutRef : option positive;
  receiverTypingTimeoutRef : option positive;
  now : Z;
  timers : list Timer;
  nextHandle : positive;
  emitted : list Emit.t;
  toasts : list Toast.t
}.

Definition setActiveChat (v : option Friend.t) (s : Chat) : Chat :=
  {| socket := socket s;
     activeChat := v;
     messages := messages s;
     inputText := inputText s;
     isTyping := isTyping s;
     isLoading := isLoading s;
     senderTypingTimeoutRef := senderTypingTimeoutRef s;
     receiverTypingTimeoutRef := receiverTypingTimeoutRef s;
     now := now s;
     timers := timers s;
     nextHandle := nextHandle s;
     emitted := emitted s;
     toasts := toasts s |}.

Definition setMessages (f : list Message → list Message) (s : Chat) : Chat :=
  {| socket := socket s;
     activeChat := activeChat s;
     messages := f (messages s);
     inputText := inputText s;
     isTyping := isTyping s;
     isLoading := isLoading s;
     senderTypingTimeoutRef := senderTypingTimeoutRef s;
     receiverTypingTimeoutRef := receiverTypingTimeoutRef s;
     now := now s;
     timers := timers s;
     nextHandle := nextHandle s;
     emitted := emitted s;
     toasts := toasts s |}.

Definition setInputText (v : string) (s : Chat) : Chat :=
  {| socket := socket s;
     activeChat := activeChat s;
     messages := messages s;
     inputText := v;
     isTyping := isTyping s;
     isLoading := isLoading s;
     senderTypingTimeoutRef := senderTypingTimeoutRef s;
     receiverTypingTimeoutRef := receiverTypingTimeoutRef s;
     now := now s;
     timers := timers s;
     nextHandle := nextHandle s;
     emitted := emitted s;
     toasts := toasts s |}.

Definition setIsTyping (v : bool) (s : Chat) : Chat :=
  {| socket := socket s;
     activeChat := activeChat s;
     messages := messages s;
     inputText := inputText s;
     isTyping := v;
     isLoading := isLoading s;
     senderTypingTimeoutRef := senderTypingTimeoutRef s;
     receiverTypingTimeoutRef := receiverTypingTimeoutRef s;
     now := now s;
     timers := timers s;
     nextHandle := nextHandle s;
     emitted := emitted s;
     toasts := toasts s |}.

Definition setIsLoading (v : bool) (s : Chat) : Chat :=
  {| socket := socket s;
     activeChat := activeChat s;
     messages := messages s;
     inputText := inputText s;
     isTyping := isTyping s;
     isLoading := v;
     senderTypingTimeoutRef := senderTypingTimeoutRef s;
     receiverTypingTimeoutRef := receiverTypingTimeoutRef s;
     now := now s;
     timers := timers s;
     nextHandle := nextHandle s;
     emitted := emitted s;
     toasts := toasts s |}.

Definition setSenderRef (v : option positive) (s : Chat) : Chat :=
  {| socket := socket s;
     activeChat := activeChat s;
     messages := messages s;
     inputText := inputText s;
     isTyping := isTyping s;
     isLoading := isLoading s;
     senderTypingTimeoutRef := v;
     receiverTypingTimeoutRef := receiverTypingTimeoutRef s;
     now := now s;
     timers := timers s;
     nextHandle := nextHandle s;
     emitted := emitted s;
     toasts := toasts s |}.

Definition setReceiverRef (v : option positive) (s : Chat) : Chat :=
  {| socket := socket s;
     activeChat := activeChat s;
     messages := messages s;
     inputText := inputText s;
     isTyping := isTyping s;
     isLoading := isLoading s;
     senderTypingTimeoutRef := senderTypingTimeoutRef s;
     receiverTypingTimeoutRef := v;
     now := now s;
     timers := timers s;
     nextHandle := nextHandle s;
     emitted := emitted s;
     toasts := toasts s |}.

Definition setNow (v : Z) (s : Chat) : Chat :=
  {| socket := socket s;
     activeChat := activeChat s;
     messages := messages s;
     inputText := inputText s;
     isTyping := isTyping s;
     isLoading := isLoading s;
     senderTypingTimeoutRef := senderTypingTimeoutRef s;
     receiverTypingTimeoutRef := receiverTypingTimeoutRef s;
     now := v;
     timers := timers s;
     nextHandle := nextHandle s;
     emitted := emitted s;
     toasts := toasts s |}.

Definition setTimers (v : list Timer) (s : Chat) : Chat :=
  {| socket := socket s;
     activeChat := activeChat s;
     messages := messages s;
     inputText := inputText s;
     isTyping := isTyping s;
     isLoading := isLoading s;
     senderTypingTimeoutRef := senderTypingTimeoutRef s;
     receiverTypingTimeoutRef := receiverTypingTimeoutRef s;
     now := now s;
     timers := v;
     nextHandle := nextHandle s;
     emitted := emitted s;
     toasts := toasts s |}.

Definition setNextHandle (v : positive) (s : Chat) : Chat :=
  {| socket := socket s;
     activeChat := activeChat s;
     messages := messages s;
     inputText := inputText s;
     isTyping := isTyping s;
     isLoading := isLoading s;
     senderTypingTimeoutRef := senderTypingTimeoutRef s;
     receiverTypingTimeoutRef := receiverTypingTimeoutRef s;
     now := now s;
     timers := timers s;
     nextHandle := v;
     emitted := emitted s;
     toasts := toasts s |}.

(** [socket.emit(...)] *)
Definition emit (e : Emit.t) (s : Chat) : Chat :=
  {| socket := socket s;
     activeChat := activeChat s;
     messages := messages s;
     inputText := inputText s;
     isTyping := isTyping s;
     isLoading := isLoading s;
     senderTypingTimeoutRef := senderTypingTimeoutRef s;
     receiverTypingTimeoutRef := receiverTypingTimeoutRef s;
     now := now s;
     timers := timers s;
     nextHandle := nextHandle s;
     emitted := emitted s ++ [e];
     toasts := toasts s |}.

(** [showToast(message, type)] *)
Definition showToast (message : string) (type : Toast.kind) (s : Chat) : Chat :=
  {| socket := socket s;
     activeChat := activeChat s;
     messages := messages s;
     inputText := inputText s;
     isTyping := isTyping s;
     isLoading := isLoading s;
     senderTypingTimeoutRef := senderTypingTimeoutRef s;
     receiverTypingTimeoutRef := receiverTypingTimeoutRef s;
     now := now s;
     timers := timers s;
     nextHandle := nextHandle s;
     emitted := emitted s;
     toasts := toasts s ++ [{| Toast.message := message; Toast.type := type |}] |}.

(** Handlers are read top to bottom: [s ▹ f ▹ g] runs [f], then [g]. *)
Notation "s ▹ f" := (f s) (at level 45, left associativity, only parsing).

(** [setTimeout(cb, delay)]: the timer is queued under a fresh handle. *)
Definition setTimeout (cb : Callback) (delay : Z) (s : Chat) : positive * Chat :=
  (nextHandle s,
   s ▹ setTimers (timers s ++ [{| handle := nextHandle s; due := now s + delay; callback := cb |}])
     ▹ setNextHandle (Pos.succ (nextHandle s))).

(** [clearTimeout(h)]: a handle that is not pending is ignored. *)
Definition clearTimeout (h : positive) (s : Chat) : Chat :=
  s ▹ setTimers (filter (λ tm, handle tm ≠ h) (timers s)).

(** [if (ref.current) clearTimeout(ref.current)] for the two refs. *)
Definition clearSenderTimeout (s : Chat) : Chat :=
  match senderTypingTimeoutRef s with Some h => clearTimeout h s | None => s end.

Definition clearReceiverTimeout (s : Chat) : Chat :=
  match receiverTypingTimeoutRef s with Some h => clearTimeout h s | None => s end.

(** [ref.current = setTimeout(cb, delay)] for the two refs. *)
Definition armSenderTimeout (cb : Callback) (delay : Z) (s : Chat) : Chat :=
  let '(h, s') := setTimeout cb delay s in setSenderRef (Some h) s'.

Definition armReceiverTimeout (cb : Callback) (delay : Z) (s : Chat) : Chat :=
  let '(h, s') := setTimeout cb delay s in setReceiverRef (Some h) s'.

(** The state once the component is mounted and its first effect has stored
    the socket; the clock starts at [t0]. *)
Definition mounted (t0 : Z) : Chat :=
  {| socket := true;
     activeChat := None;
     messages := [];
     inputText := "";
     isTyping := false;
     isLoading := false;
     senderTypingTimeoutRef := None;
     receiverTypingTimeoutRef := None;
     now := t0;
     timers := [];
     nextHandle := 1%positive;
     emitted := [];
     toasts := [] |}.

(** ** Timers coming due *)

(** Run a timer's callback and drop it from the queue. *)
Definition fire (tm : Timer) (s : Chat) : Chat :=
  let s' := clearTimeout (handle tm) s in
  match callback tm with
  | emitStopTyping from to => s' ▹ emit (Emit.stopTyping from to)
  | clearIsTyping => s' ▹ setIsTyping false
  end.

(** The pending timer that fires next when the clock reaches [t]: the
    earliest one due by [t], the first queued among equals. *)
Fixpoint nextDue (t : Z) (tms : list Timer) : option Timer :=
  match tms with
  | [] => None
  | tm :: rest =>
      match nextDue t rest with
      | Some tm' => if (due tm <=? t) && (due tm <=? due tm') then Some tm else Some tm'
      | None => if due tm <=? t then Some tm else None
      end
  end.

Fixpoint runTimers (fuel : nat) (t : Z) (s : Chat) : Chat :=
  match fuel with
  | O => s
  | S fuel' =>
      match nextDue t (timers s) with
      | Some tm => runTimers fuel' t (fire tm s)
      | None => s
      end
  end.

(** [ms] milliseconds pass with no event: every timer due by then fires. No
    callback queues a timer, so one round per pending timer is enough. *)
Definition elapse (ms : Z) (s : Chat) : Chat :=
  let t := now s + Z.max 0 ms in
  runTimers (length (timers s)) t s ▹ setNow t.

(** ** Handlers *)

Section Handlers.

(** The props and context of the component: the logged-in user, the
    translation function of [useLanguage] and the clock reading. *)
Variable user : User.t.
Variable t : string → string.
Variable getTime : string → option Z.

Abbreviation me := (User.userId user).

(** [activeChat?.userId === x] *)
Definition activeIs (x : string) (s : Chat) : bool :=
  match activeChat s with
  | Some chat => bool_decide (Friend.userId chat = x)
  | None => false
  end.

(** *** Inbound socket events *)

Definition handleConnect (s : Chat) : Chat :=
  s ▹ emit (Emit.join me).

Definition handleReceiveMessage (msg : Message) (s : Chat) : Chat :=
  match activeChat s with
  | Some chat =>
      if bool_decide (fromUserId msg = Friend.userId chat)
         || bool_decide (toUserId msg = Friend.userId chat)
      then
        let s' := s ▹ setIsTyping false
                    ▹ clearReceiverTimeout
                    ▹ setMessages (receiveMessage me getTime msg) in
        if bool_decide (fromUserId msg = Friend.userId chat)
        then s' ▹ emit (Emit.markAsRead me (Friend.userId chat))
        else s'
      else s
  | None => s
  end.

Definition handleMessageSent (data : Message) (s : Chat) : Chat :=
  s ▹ setMessages (messageSent me getTime data).

Definition handleMessageRecalled (messageId : string) (s : Chat) : Chat :=
  s ▹ setMessages (messageRecalled messageId).

Definition handleMessageDeleted (messageId deletedBy deletedAt : string) (s : Chat) : Chat :=
  s ▹ setMessages
        (messageDeleted messageId {| by_userId := deletedBy; deletedAt := deletedAt |}).

(** [data.message || t('action.failed')] *)
Definition handleRecallError (message : option string) (s : Chat) : Chat :=
  let shown :=
    match message with
    | Some m => if JS.truthy m then m else t "action.failed"
    | None => t "action.failed"
    end in
  s ▹ showToast shown Toast.error.

Definition handleNewRequest (s : Chat) : Chat :=
  s ▹ showToast (t "modal.friendRequests") Toast.info.

Definition handleRequestAccepted (s : Chat) : Chat :=
  s ▹ showToast (t "action.accepted") Toast.success.

Definition handleMessagesRead (byUserId : string) (s : Chat) : Chat :=
  if activeIs byUserId s then s ▹ setMessages (messagesRead me) else s.

(** [newSocket.on('userTyping', ...)] *)
Definition handleUserTyping (fromUserId : string) (s : Chat) : Chat :=
  if activeIs fromUserId s
  then s ▹ setIsTyping true
         ▹ clearReceiverTimeout
         ▹ armReceiverTimeout clearIsTyping 5000
  else s.

(** [newSocket.on('userStopTyping', ...)] *)
Definition handleUserStopTyping (fromUserId : string) (s : Chat) : Chat :=
  if activeIs fromUserId s
  then s ▹ setIsTyping false ▹ clearReceiverTimeout
  else s.

(** *** Conversation session *)

(** [selectChat] up to its [await]. *)
Definition selectChat (friend : Friend.t) (s : Chat) : Chat :=
  let s1 := s ▹ clearSenderTimeout ▹ clearReceiverTimeout in
  let s2 :=
    match activeChat s with
    | Some chat =>
        if socket s then s1 ▹ emit (Emit.stopTyping me (Friend.userId chat)) else s1
    | None => s1
    end in
  s2 ▹ setIsTyping false
     ▹ setInputText ""
     ▹ setActiveChat (Some friend)
     ▹ setMessages (λ _, [])
     ▹ setIsLoading true.

(** [selectChat] from the moment the history request settles: [Some h]
    when it resolves with [data.messages || []] equal to [h], [None] when it
    rejects. *)
Definition selectChat_settled (friend : Friend.t) (history : option (list Message))
    (s : Chat) : Chat :=
  match history with
  | Some h =>
      let s1 := s ▹ setMessages (λ _, h) in
      let s2 :=
        if socket s then s1 ▹ emit (Emit.markAsRead me (Friend.userId friend)) else s1 in
      s2 ▹ setIsLoading false
  | None =>
      s ▹ showToast "Failed to load messages" Toast.error ▹ setIsLoading false
  end.

Definition handleBackToFriends (s : Chat) : Chat :=
  s ▹ setActiveChat None.

(** *** Local actions *)

Definition handleInputChange (text : string) (s : Chat) : Chat :=
  let s0 := s ▹ setInputText text in
  match activeChat s with
  | Some chat =>
      if socket s then
        if bool_decide (0 < String.length text)%nat then
          s0 ▹ emit (Emit.typing me (Friend.userId chat))
             ▹ clearSenderTimeout
             ▹ armSenderTimeout (emitStopTyping me (Friend.userId chat)) 2000
        else
          s0 ▹ clearSenderTimeout
             ▹ emit (Emit.stopTyping me (Friend.userId chat))
      else s0
  | None => s0
  end.

(** [Math.random().toString(36).substr(2, 9)], given the digits
    [Math.random().toString(36)] produced. *)
Definition tempId (random36 : string) : string := JS.substr 2 9 random36.

(** [msgData] of [sendMessage]. *)
Definition textMessage (chat : Friend.t) (input timestamp random36 : string) : Message :=
  {| _id := Some (tempId random36);
     fromUserId := me;
     toUserId := Friend.userId chat;
     content := input;
     messageType := text;
     imageUrl := None;
     voiceUrl := None;
     blobUrl := None;
     voiceDuration := None;
     timestamp := timestamp;
     status := Some sent;
     isRead := None;
     isRecalled := None;
     deletedBy := None |}.

(** [sendMessage], with the two readings it takes from the environment:
    [new Date().toISOString()] and [Math.random().toString(36)]. *)
Definition sendMessage (timestamp random36 : string) (s : Chat) : Chat :=
  match activeChat s with
  | Some chat =>
      if JS.blank (inputText s) || negb (socket s) then s
      else
        let msgData := textMessage chat (inputText s) timestamp random36 in
        s ▹ clearSenderTimeout
          ▹ emit (Emit.stopTyping me (Friend.userId chat))
          ▹ emit (Emit.sendMessage msgData)
          ▹ setMessages (λ prev, prev ++ [msgData])
          ▹ setInputText ""
  | None => s
  end.

Definition stillSyncing : string := "Syncing message, please try again...".

(** [handleRecallMessage(messageId)]. [MessageBubble] calls it with
    [message._id!], so an absent identity arrives as [None] and is falsy
    like the empty string. *)
Definition handleRecallMessage (messageId : option string) (s : Chat) : Chat :=
  match messageId with
  | Some id =>
      if negb (socket s) || negb (JS.truthy id) then
        s ▹ showToast (t "action.failed") Toast.error
      else if bool_decide (String.length id < 20)%nat then
        s ▹ showToast stillSyncing Toast.info
      else
        s ▹ emit (Emit.recallMessage id me (Friend.userId <$> activeChat s))
          ▹ setMessages (messageRecalled id)
          ▹ showToast (t "chat.youRecalled") Toast.success
  | None => s ▹ showToast (t "action.failed") Toast.error
  end.

(** [handleDeleteMessage(messageId)]; [deletedAt] is the reading of
    [new Date().toISOString()]. *)
Definition handleDeleteMessage (messageId : option string) (deletedAt : string)
    (s : Chat) : Chat :=
  match messageId with
  | Some id =>
      if negb (socket s) || negb (JS.truthy id) then s
      else if bool_decide (String.length id < 20)%nat then
        s ▹ showToast stillSyncing Toast.info
      else
        s ▹ emit (Emit.deleteMessage id me)
          ▹ setMessages (messageDeleted id {| by_userId := me; deletedAt := deletedAt |})
          ▹ showToast (t "action.deleted") Toast.success
  | None => s
  end.

(** [msgData] of [handleFileUpload]: it has no [_id] key. *)
Definition imageMessage (chat : Friend.t) (url timestamp : string) : Message :=
  {| _id := None;
     fromUserId := me;
     toUserId := Friend.userId chat;
     content := "[Image]";
     messageType := image;
     imageUrl := Some url;
     voiceUrl := None;
     blobUrl := None;
     voiceDuration := None;
     timestamp := timestamp;
     status := Some sent;
     isRead := None;
     isRecalled := None;
     deletedBy := None |}.

(** [handleFileUpload] from the moment the upload settles, for a file that
    was chosen while [chat] was active and the socket present: [Some url]
    when it resolves with [data.imageUrl], [None] when it rejects. *)
Definition handleFileUpload_settled (chat : Friend.t) (upload : option string)
    (timestamp : string) (s : Chat) : Chat :=
  match upload with
  | Some url =>
      let msgData := imageMessage chat url timestamp in
      s ▹ emit (Emit.sendMessage msgData)
        ▹ setMessages (λ prev, prev ++ [msgData])
  | None => s ▹ showToast "Image upload failed" Toast.error
  end.

(** [optimisticMsg] of [handleVoiceRecorded]. *)
Definition voiceMessage (chat : Friend.t) (localUrl : string) (duration : Z)
    (timestamp random36 : string) : Message :=
  {| _id := Some (tempId random36);
     fromUserId := me;
     toUserId := Friend.userId chat;
     content := "[Voice]";
     messageType := voice;
     imageUrl := None;
     voiceUrl := None;
     blobUrl := Some localUrl;
     voiceDuration := Some duration;
     timestamp := timestamp;
     status := Some sending;
     isRead := None;
     isRecalled := None;
     deletedBy := None |}.

(** [handleVoiceRecorded] up to its [await]. *)
Definition handleVoiceRecorded (localUrl : string) (duration : Z)
    (timestamp random36 : string) (s : Chat) : Chat :=
  match activeChat s with
  | Some chat =>
      if socket s then
        s ▹ setMessages (λ prev, prev ++ [voiceMessage chat localUrl duration timestamp random36])
      else s
  | None => s
  end.

(** [{ ...m, ...realMsgData }] with
    [realMsgData = { ...optimisticMsg, voiceUrl, status: 'sent' }]. *)
Definition uploaded (m optimisticMsg : Message) (url : string) : Message :=
  {| _id := _id optimisticMsg;
     fromUserId := fromUserId optimisticMsg;
     toUserId := toUserId optimisticMsg;
     content := content optimisticMsg;
     messageType := messageType optimisticMsg;
     imageUrl := imageUrl m;
     voiceUrl := Some url;
     blobUrl := blobUrl optimisticMsg;
     voiceDuration := voiceDuration optimisticMsg;
     timestamp := timestamp optimisticMsg;
     status := Some sent;
     isRead := isRead m;
     isRecalled := isRecalled m;
     deletedBy := deletedBy m |}.

(** [{ ...m, status: 'error' }] *)
Definition failed (m : Message) : Message :=
  {| _id := _id m;
     fromUserId := fromUserId m;
     toUserId := toUserId m;
     content := content m;
     messageType := messageType m;
     imageUrl := imageUrl m;
     voiceUrl := voiceUrl m;
     blobUrl := blobUrl m;
     voiceDuration := voiceDuration m;
     timestamp := timestamp m;
     status := Some error;
     isRead := isRead m;
     isRecalled := isRecalled m;
     deletedBy := deletedBy m |}.

(** The wire form of a voice message: no [_id], no [blobUrl], no [status]. *)
Definition voicePayload (chat : Friend.t) (url : string) (duration : Z)
    (timestamp : string) : Message :=
  {| _id := None;
     fromUserId := me;
     toUserId := Friend.userId chat;
     content := "[Voice]";
     messageType := voice;
     imageUrl := None;
     voiceUrl := Some url;
     blobUrl := None;
     voiceDuration := Some duration;
     timestamp := timestamp;
     status := None;
     isRead := None;
     isRecalled := None;
     deletedBy := None |}.

(** [handleVoiceRecorded] from the moment the upload settles, with the
    values its closure holds: [Some url] when it resolves with
    [data.voiceUrl], [None] when it rejects. *)
Definition handleVoiceRecorded_settled (chat : Friend.t) (localUrl : string)
    (duration : Z) (timestamp random36 : string) (upload : option string)
    (s : Chat) : Chat :=
  let optimisticMsg := voiceMessage chat localUrl duration timestamp random36 in
  match upload with
  | Some url =>
      s ▹ emit (Emit.sendMessage (voicePayload chat url duration timestamp))
        ▹ setMessages
            (fmap (λ m, if bool_decide (_id m = Some (tempId random36))
                        then uploaded m optimisticMsg url else m))
  | None =>
      s ▹ showToast "Voice upload failed" Toast.error
        ▹ setMessages
            (fmap (λ m, if bool_decide (_id m = Some (tempId random36))
                        then failed m else m))
  end.

(** *** The event loop *)

(** Everything that can happen to the mounted component. *)
Inductive Event :=
| connect
| receiveMessage_ (msg : Message)
| messageSent_ (data : Message)
| messageRecalled_ (messageId : string)
| recallError (message : option string)
| messageDeleted_ (messageId deletedBy deletedAt : string)
| messagesRead_ (byUserId : string)
| newFriendRequest
| friendRequestAccepted
| userTyping (fromUserId : string)
| userStopTyping (fromUserId : string)
| chatSelected (friend : Friend.t)
| historySettled (friend : Friend.t) (history : option (list Message))
| backToFriends
| inputChanged (value : string)
| sendClicked (timestamp random36 : string)
| recallClicked (messageId : option string)
| deleteClicked (messageId : option string) (deletedAt : string)
| imageSettled (chat : Friend.t) (upload : option string) (timestamp : string)
| voiceRecorded (localUrl : string) (duration : Z) (timestamp random36 : string)
| voiceSettled (chat : Friend.t) (localUrl : string) (duration : Z)
    (timestamp random36 : string) (upload : option string)
| elapsed (ms : Z).

Definition step (s : Chat) (e : Event) : Chat :=
  match e with
  | connect => handleConnect s
  | receiveMessage_ msg => handleReceiveMessage msg s
  | messageSent_ data => handleMessageSent data s
  | messageRecalled_ messageId => handleMessageRecalled messageId s
  | recallError message => handleRecallError message s
  | messageDeleted_ messageId deletedBy deletedAt =>
      handleMessageDeleted messageId deletedBy deletedAt s
  | messagesRead_ byUserId => handleMessagesRead byUserId s
  | newFriendRequest => handleNewRequest s
  | friendRequestAccepted => handleRequestAccepted s
  | userTyping fromUserId => handleUserTyping fromUserId s
  | userStopTyping fromUserId => handleUserStopTyping fromUserId s
  | chatSelected friend => selectChat friend s
  | historySettled friend history => selectChat_settled friend history s
  | backToFriends => handleBackToFriends s
  | inputChanged value => handleInputChange value s
  | sendClicked timestamp random36 => sendMessage timestamp random36 s
  | recallClicked messageId => handleRecallMessage messageId s
  | deleteClicked messageId deletedAt => handleDeleteMessage messageId deletedAt s
  | imageSettled chat upload timestamp => handleFileUpload_settled chat upload timestamp s
  | voiceRecorded localUrl duration timestamp random36 =>
      handleVoiceRecorded localUrl duration timestamp random36 s
  | voiceSettled chat localUrl duration timestamp random36 upload =>
      handleVoiceRecorded_settled chat localUrl duration timestamp random36 upload s
  | elapsed ms => elapse ms s
  end.

Definition run (s : Chat) (events : list Event) : Chat := foldl step s events.

(** A state the mounted component can be in. *)
Definition reachable (s : Chat) : Prop :=
  ∃ t0 events, s = run (mounted t0) events.

(** *** Rendering *)

Inductive Bubble :=
| notice (label : string)     (* the centred "recalled" pill *)
| bubble (message : Message). (* the normal display of the message *)

(** [MessageBubble]: which of its two [return]s is taken. *)
Definition MessageBubble (message : Message) (isMe : bool) : Bubble :=
  if default false (isRecalled message)
  then notice (if isMe then t "chat.youRecalled" else t "chat.recalled")
  else bubble message.

(** The message list of the page:
    [messages.filter(msg => !msg.deletedBy?.some(d => d.userId === user.userId))]
    mapped to bubbles. *)
Definition hiddenFromMe (msg : Message) : bool :=
  match deletedBy msg with
  | Some ds => JS.some (λ d, bool_decide (by_userId d = me)) ds
  | None => false
  end.

Definition renderLog (s : Chat) : list Bubble :=
  (λ msg, MessageBubble msg (bool_decide (fromUserId msg = me)))
    <$> filter (λ msg, hiddenFromMe msg = false) (messages s).

End Handlers.

(** ** services/api.ts *)

Module Api.

(** [s.startsWith(p)] and [s.slice(1)]. *)
Definition startsWith (p s : string) : bool := String.prefix p s.

Definition slice1 (s : string) : string :=
  match s with
  | EmptyString => EmptyString
  | String _ rest => rest
  end.

Definition API_BASE_URL : string := "https://www.haoaiganfan.top/ms/".

Definition normalizeImageUrl (url : option string) : string :=
  match url with
  | None => ""
  | Some url =>
      if negb (JS.truthy url) then ""
      else if startsWith "http" url || startsWith "blob:" url then url
      else
        let cleanUrl := if startsWith "/" url then slice1 url else url in
        if startsWith "ms/" cleanUrl
        then "https://www.haoaiganfan.top/" +:+ cleanUrl
        else API_BASE_URL +:+ cleanUrl
  end.

(** A connection as [io(...)] opens it: the [n]-th one of the page, with the
    [userId] of its query. *)
Record Socket := { serial : nat; query_userId : string }.

(** The module variable [socket], with the connections opened and the
    connections disconnected so far, oldest first. *)
Record Net := {
  current : option Socket;
  opened : list Socket;
  disconnected : list Socket
}.

Definition offline : Net := {| current := None; opened := []; disconnected := [] |}.

Definition getSocket (userId : string) (net : Net) : Socket * Net :=
  match current net with
  | Some sock => (sock, net)
  | None =>
      let sock := {| serial := length (opened net); query_userId := userId |} in
      (sock, {| current := Some sock;
                opened := opened net ++ [sock];
                disconnected := disconnected net |})
  end.

Definition disconnectSocket (net : Net) : Net :=
  match current net with
  | Some sock =>
      {| current := None;
         opened := opened net;
         disconnected := disconnected net ++ [sock] |}
  | None => net
  end.

(** What the pages do with the module, one call after the other. *)
Inductive Call := get (userId : string) | disconnect.

Definition call (net : Net) (c : Call) : Net :=
  match c with
  | get userId => (getSocket userId net).2
  | disconnect => disconnectSocket net
  end.

End Api.

(** ** components/Toast.tsx *)

Module ToastProvider.

Record Toast := { id : string; message : string; type : Toast.kind }.

(** The state [toasts], the clock, and the pending timers: each removes the
    toasts of one [id] when it is due. *)
Record State := {
  toasts : list Toast;
  now : Z;
  pending : list (Z * string)
}.

(** [prev.filter(t => t.id !== id)] *)
Definition without (id_ : string) (prev : list Toast) : list Toast :=
  filter (λ x, id x ≠ id_) prev.

(** [showToast(message, type)], given the digits [Math.random().toString(36)]
    produced. *)
Definition showToast (message : string) (type : Toast.kind) (random36 : string)
    (st : State) : State :=
  let id_ := JS.substr 2 9 random36 in
  {| toasts := toasts st ++ [{| id := id_; message := message; type := type |}];
     now := now st;
     pending := pending st ++ [(now st + 3000, id_)] |}.

(** [removeToast(id)], the close button of a toast. *)
Definition removeToast (id_ : string) (st : State) : State :=
  {| toasts := without id_ (toasts st); now := now st; pending := pending st |}.

(** [ms] milliseconds pass: the timers due by then fire. A timer only
    filters the toasts, so the order in which they fire does not matter and
    they are taken in queue order. *)
Definition elapse (ms : Z) (st : State) : State :=
  let t := now st + Z.max 0 ms in
  {| toasts := foldl (λ acc tm, if tm.1 <=? t then without tm.2 acc else acc)
                 (toasts st) (pending st);
     now := t;
     pending := filter (λ tm, t < tm.1) (pending st) |}.

End ToastProvider.

(** ** The voice recorder: container types and buffers *)

Module Recorder.

(** [s.includes(needle)] *)
Fixpoint includes (needle s : string) : bool :=
  String.prefix needle s
  || match s with
     | EmptyString => false
     | String _ rest => includes needle rest
     end.

(** The container types [getSupportedMimeType] tries, in its order. *)
Definition types : list string :=
  ["audio/mp4"; "audio/webm;codecs=opus"; "audio/webm"; "audio/ogg"].

(** [getSupportedMimeType()], given [MediaRecorder.isTypeSupported]. *)
Definition getSupportedMimeType (isTypeSupported : string → bool) : string :=
  default "" (List.find isTypeSupported types).

(** The type of the blob the recorder hands over:
    [mimeTypeRef.current || 'audio/webm']. *)
Definition blobType (mimeType : string) : string :=
  if JS.truthy mimeType then mimeType else "audio/webm".

(** The file extension [handleVoiceRecorded] picks from [audioBlob.type]. *)
Definition extension (mimeType : string) : string :=
  if includes "mp4" mimeType || includes "aac" mimeType then ".m4a"
  else if includes "ogg" mimeType then ".ogg"
  else if includes "wav" mimeType then ".wav"
  else ".webm".

Section Buffers.

(** The samples are only moved, never computed with: any type with a zero. *)
Variable Sample : Type.
Variable zero : Sample.

(** [result.set(buffer, offset)]: a [RangeError] ([None]) when the buffer
    does not fit. *)
Definition set (result buffer : list Sample) (offset : nat) : option (list Sample) :=
  if bool_decide (offset + length buffer ≤ length result)%nat
  then Some (take offset result ++ buffer ++ drop (offset + length buffer) result)
  else None.

(** The loop of [flattenArray]. *)
Fixpoint flattenInto (result : list Sample) (offset : nat)
    (channelBuffer : list (list Sample)) : option (list Sample) :=
  match channelBuffer with
  | [] => Some result
  | buffer :: rest =>
      result' ← set result buffer offset;
      flattenInto result' (offset + length buffer)%nat rest
  end.

Definition flattenArray (channelBuffer : list (list Sample)) (recordingLength : nat)
  : option (list Sample) :=
  flattenInto (replicate recordingLength zero) 0 channelBuffer.

End Buffers.

End Recorder.

(** ** Vocabulary of the statements *)

(** [m] is a candidate for the echo [msg]: a placeholder with the echo's
    content and type. *)
Definition candidate (msg m : Message) : Prop :=
  (idLength m < 20)%nat ∧ content m = content msg ∧ messageType m = messageType msg.

(** The two timestamps read as instants less than 5000 ms apart. *)
Definition closeInTime (getTime : string → option Z) (a b : string) : Prop :=
  ∃ t1 t2, getTime a = Some t1 ∧ getTime b = Some t2 ∧ Z.abs (t1 - t2) < 5000.

(** Some entry of the log carries the identity of [msg]. *)
Definition known (msg : Message) (log : list Message) : Prop :=
  ∃ m, m ∈ log ∧ _id m = _id msg.

(** [m'] is [m] with the record [d] appended to its [deletedBy]. *)
Definition gainsDeletion (m m' : Message) (d : Deletion) : Prop :=
  m' = withDeletion m d ∧ deletedBy m' = Some (default [] (deletedBy m) ++ [d]).

(** The event brings the identity that [m'] carries: a received message or
    a send-confirmation with that identity. *)
Definition confirms (e : Event) (m' : Message) : Prop :=
  match e with
  | receiveMessage_ msg => _id m' = _id msg
  | messageSent_ data => _id m' = _id data
  | _ => False
  end.

(** The outcome of a voice upload, when the event is one settling. *)
Definition uploadOutcome (e : Event) : option bool :=
  match e with
  | voiceSettled _ _ _ _ _ (Some _) => Some true
  | voiceSettled _ _ _ _ _ None => Some false
  | _ => None
  end.

(** What one event may do to the identity and the status of an entry [m],
    [m'] being the entry after it. The identity changes only for a
    placeholder, into the identity the event brings, with the status [sent].
    The status changes only to [sent], with the identity the event brings or
    on a successful voice upload, or to [error], on a failed voice upload. *)
Definition lifecycle (e : Event) (m m' : Message) : Prop :=
  (_id m' ≠ _id m →
     (idLength m < 20)%nat ∧ confirms e m' ∧ status m' = Some sent) ∧
  (status m' ≠ status m →
     (status m' = Some sent ∧ (confirms e m' ∨ uploadOutcome e = Some true)) ∨
     (status m' = Some error ∧ uploadOutcome e = Some false)).

(** Every character of [s] is in the ASCII range. *)
Definition asciiOnly (s : string) : bool :=
  forallb (λ c, bool_decide (nat_of_ascii c < 128)%nat) (String.list_ascii_of_string s).

(** The actors recorded in an entry's [deletedBy]. *)
Definition deleters (m : Message) : list string :=
  by_userId <$> default [] (deletedBy m).

(** The events that replace the log wholesale instead of updating its
    entries: a conversation switch and the arrival of the history. *)
Definition replacesLog (e : Event) : bool :=
  match e with
  | chatSelected _ | historySettled _ _ => true
  | _ => false
  end.

(** A received message that says of itself that it is not recalled. *)
Definition unrecalls (e : Event) : bool :=
  match e with
  | receiveMessage_ msg => bool_decide (isRecalled msg = Some false)
  | _ => false
  end.

(** What one event may do to a recalled entry [m]: it is still recalled, and
    it keeps its identity if that was a durable one. *)
Definition staysRecalled (m m' : Message) : Prop :=
  isRecalled m' = Some true ∧ ((20 ≤ idLength m)%nat → _id m' = _id m).

(** The timer discipline of the typing guard: the socket is there, pending
    timers have distinct handles below the next one to be given out, and a
    pending timer is the one its ref points to (the receiver ref for a
    [clearIsTyping], the sender ref for an [emitStopTyping]). *)
Definition tracked (s : Chat) (tm : Timer) : Prop :=
  match callback tm with
  | clearIsTyping => receiverTypingTimeoutRef s = Some (handle tm)
  | emitStopTyping _ _ => senderTypingTimeoutRef s = Some (handle tm)
  end.

Definition tidy (s : Chat) : Prop :=
  socket s = true ∧
  NoDup (handle <$> timers s) ∧
  (∀ tm, tm ∈ timers s → (handle tm < nextHandle s)%positive) ∧
  (∀ tm, tm ∈ timers s → tracked s tm).

(** The clock side of the timer discipline: the timer refs hold handles
    that were given out, never the same one, and no pending timer is
    overdue. *)
Definition wellTimed (s : Chat) : Prop :=
  (∀ h, senderTypingTimeoutRef s = Some h → (h < nextHandle s)%positive) ∧
  (∀ h, receiverTypingTimeoutRef s = Some h → (h < nextHandle s)%positive) ∧
  (∀ h, senderTypingTimeoutRef s = Some h → receiverTypingTimeoutRef s ≠ Some h) ∧
  (∀ tm, tm ∈ timers s → now s < due tm).

(** The events that leave the typing flag of the conversation with [peer]
    alone: all but a message of that conversation, a [userStopTyping] of the
    peer and a conversation switch. *)
Definition quiet (peer : string) (e : Event) : bool :=
  match e with
  | receiveMessage_ msg => bool_decide (fromUserId msg ≠ peer ∧ toUserId msg ≠ peer)
  | userStopTyping x => bool_decide (x ≠ peer)
  | chatSelected _ => false
  | _ => true
  end.

(** The typing flag is up and stays up until [deadline]: no pending timer
    lowers it before, any timer armed from now on is due later, and the open
    conversation, if any, is the one with [peer]. *)
Definition up (deadline : Z) (peer : string) (s : Chat) : Prop :=
  isTyping s = true ∧
  deadline - 5000 ≤ now s ∧
  (∀ chat, activeChat s = Some chat → Friend.userId chat = peer) ∧
  (∀ tm, tm ∈ timers s → callback tm = clearIsTyping → deadline ≤ due tm).

(** While the conversation with [peer] is open and its typing flag is up, a
    timer that lowers the flag is pending and due by [deadline]. *)
Definition covered (deadline : Z) (peer : string) (s : Chat) : Prop :=
  activeIs peer s = true → isTyping s = true →
  ∃ tm, tm ∈ timers s ∧ callback tm = clearIsTyping ∧ due tm ≤ deadline.

(** *** A concrete session, used to run the handlers

    Alice is logged in and talks to Bob; the translation function is the
    identity on keys and timestamps are read by [JS.isoTime]. *)

Definition alice : User.t :=
  {| User.userId := "alice"; User.username := "Alice"; User.avatar := None |}.

Definition bob : Friend.t :=
  {| Friend.userId := "bob"; Friend.username := "Bob"; Friend.avatar := None;
     Friend.unreadCount := None; Friend.lastMessage := None |}.

Definition carol : Friend.t :=
  {| Friend.userId := "carol"; Friend.username := "Carol"; Friend.avatar := None;
     Friend.unreadCount := None; Friend.lastMessage := None |}.

Definition keys (key : string) : string := key.

(** Two rapid sends of "hi", one second apart. *)
Definition hi1 : Message :=
  textMessage alice bob "hi" "2024-03-01T12:00:00.000Z" "0.x7f3a2b1c".

Definition hi2 : Message :=
  textMessage alice bob "hi" "2024-03-01T12:00:01.000Z" "0.k2m9q4z8w".

(** An older "hi" whose echo never came. *)
Definition hi0 : Message :=
  textMessage alice bob "hi" "2024-03-01T11:00:00.000Z" "0.a1b2c3d4e".

(** A message as the server sends it, with a 24-character identity. *)
Definition fromServer (id from to body timestamp : string) : Message :=
  {| _id := Some id;
     fromUserId := from;
     toUserId := to;
     content := body;
     messageType := text;
     imageUrl := None;
     voiceUrl := None;
     blobUrl := None;
     voiceDuration := None;
     timestamp := timestamp;
     status := None;
     isRead := Some false;
     isRecalled := Some false;
     deletedBy := Some [] |}.

Definition echo1 : Message :=
  fromServer "65e1c0a4f1d2b3a4c5d6e7f8" "alice" "bob" "hi" "2024-03-01T12:00:00.200Z".

(** Alice has opened the conversation with Bob and sent "hi" twice. *)
Definition twoSends : list Event :=
  [ chatSelected bob; historySettled bob (Some []);
    inputChanged "hi"; sendClicked "2024-03-01T12:00:00.000Z" "0.x7f3a2b1c";
    inputChanged "hi"; sendClicked "2024-03-01T12:00:01.000Z" "0.k2m9q4z8w" ].

Definition afterTwoSends : Chat := run alice keys JS.isoTime (mounted 0) twoSends.

(** Alice sent "hi" an hour ago, and sends it again now. *)
Definition afterStaleSend : Chat :=
  run alice keys JS.isoTime (mounted 0)
    [ chatSelected bob; historySettled bob (Some []);
      inputChanged "hi"; sendClicked "2024-03-01T11:00:00.000Z" "0.a1b2c3d4e";
      inputChanged "hi"; sendClicked "2024-03-01T12:00:00.000Z" "0.x7f3a2b1c" ].


(** Alice has the conversation with Bob open and "hi" typed in. *)
Definition hiTyped : Chat :=
  run alice keys JS.isoTime (mounted 0)
    [chatSelected bob; historySettled bob (Some []); inputChanged "hi"].

(** A message of Bob's, as loaded from the history. *)
Definition fromBob : Message :=
  fromServer "65e1c0a4f1d2b3a4c5d6e7f9" "bob" "alice" "hello" "2024-03-01T11:59:00.000Z".

Definition bobWrote : Chat :=
  run alice keys JS.isoTime (mounted 0)
    [chatSelected bob; historySettled bob (Some [fromBob])].

(** Bob's message has been recalled. *)
Definition bobRecalled : Chat :=
  run alice keys JS.isoTime bobWrote [messageRecalled_ "65e1c0a4f1d2b3a4c5d6e7f9"].

(** Alice is typing to Bob while Bob is typing to her: both timers of the
    typing guard are armed. *)
Definition bothTyping : Chat :=
  run alice keys JS.isoTime bobWrote [inputChanged "h"; userTyping "bob"].

(** ** Facts about the built-ins *)

Lemma findIndex_Some {A} (p : A → bool) (arr : list A) (i : nat) :
  JS.findIndex p arr = Some i ↔
  (∃ x, arr !! i = Some x ∧ p x = true) ∧
  (∀ j y, (j < i)%nat → arr !! j = Some y → p y = false).
Proof.
  revert i. induction arr as [|x rest IH]; intros i; simpl.
  - split; [discriminate | intros [[y [Hy _]] _]; discriminate].
  - destruct (p x) eqn:Hpx.
    + split.
      * intros [= <-]. split; [eauto | intros j y Hj; lia].
      * intros [[y [Hy Hpy]] Hmin]. destruct i as [|i]; [done|].
        specialize (Hmin 0%nat x ltac:(lia) eq_refl). congruence.
    + destruct (JS.findIndex p rest) as [k|]; simpl.
      * split.
        -- intros [= <-]. destruct (proj1 (IH k) eq_refl) as [Hex Hmin]. split; [exact Hex|].
           intros [|j] y Hj Hy; simpl in Hy; [congruence | eapply Hmin; [|exact Hy]; lia].
        -- intros [[y [Hy Hpy]] Hmin]. destruct i as [|i]; simpl in Hy; [congruence|].
           f_equal. enough (Some k = Some i) by congruence.
           apply IH. split; [eauto|].
           intros j z Hj Hz. apply (Hmin (S j) z); [lia | done].
      * split; [discriminate|].
        intros [[y [Hy Hpy]] Hmin]. destruct i as [|i]; simpl in Hy; [congruence|].
        enough (None = Some i) by discriminate.
        apply IH. split; [eauto|].
        intros j z Hj Hz. apply (Hmin (S j) z); [lia | done].
Qed.

Lemma some_true {A} (p : A → bool) (arr : list A) :
  JS.some p arr = true ↔ ∃ x, x ∈ arr ∧ p x = true.
Proof.
  unfold JS.some. rewrite existsb_exists.
  split; intros [x [Hx Hp]]; exists x; (split; [by apply list_elem_of_In | done]).
Qed.

Lemma elem_of_snoc {A} (l : list A) (x : A) : x ∈ l ++ [x].
Proof. apply elem_of_app. right. by apply list_elem_of_singleton. Qed.

Lemma substr_length (start len : nat) (s : string) :
  (String.length (JS.substr start len s) ≤ len)%nat.
Proof.
  unfold JS.substr. revert start len.
  induction s as [|c s IH]; intros [|start] [|len]; simpl; try lia.
  - specialize (IH 0%nat len). lia.
  - apply IH.
  - apply IH.
Qed.

(** ** The matcher *)

Lemma optimisticFor_candidate (msg m : Message) :
  optimisticFor msg m = true ↔ candidate msg m.
Proof.
  unfold optimisticFor, candidate.
  rewrite !andb_true_iff, !bool_decide_eq_true. tauto.
Qed.

Section Matcher.

Variable me : string.
Variable getTime : string → option Z.

Lemma within5000_closeInTime (a b : string) :
  within5000 getTime a b = true ↔ closeInTime getTime a b.
Proof.
  unfold within5000, closeInTime. split.
  - destruct (getTime a) as [t1|], (getTime b) as [t2|]; try discriminate.
    intros H%Z.ltb_lt. eauto.
  - intros (t1 & t2 & -> & -> & H). by apply Z.ltb_lt.
Qed.

Lemma known_some (msg : Message) (log : list Message) :
  JS.some (λ m, bool_decide (_id m = _id msg)) log = true ↔ known msg log.
Proof.
  rewrite some_true. unfold known.
  split; intros [m [Hm H]]; exists m; (split; [done|]);
    [by apply bool_decide_eq_true in H | by apply bool_decide_eq_true].
Qed.

(** The merge branch, once taken, rewrites one slot and nothing else. *)
Lemma receiveMessage_merge (prev : list Message) (msg P : Message) (i : nat) :
  fromUserId msg = me →
  ¬ known msg prev →
  prev !! i = Some P →
  candidate msg P →
  (∀ j m, (j < i)%nat → prev !! j = Some m → ¬ candidate msg m) →
  closeInTime getTime (timestamp P) (timestamp msg) →
  receiveMessage me getTime msg prev = <[i := confirmed P msg]> prev.
Proof.
  intros Hme Hnew Hi Hcand Hfirst Hclose. unfold receiveMessage.
  destruct (JS.some _ prev) eqn:Hsome; [by apply known_some in Hsome|].
  unfold mergeOptimistic. rewrite bool_decide_eq_true_2 by done.
  assert (JS.findIndex (optimisticFor msg) prev = Some i) as ->.
  { apply findIndex_Some. split.
    - exists P. split; [done | by apply optimisticFor_candidate].
    - intros j m Hj Hm. destruct (optimisticFor msg m) eqn:Hopt; [|done].
      apply optimisticFor_candidate in Hopt. by destruct (Hfirst j m Hj Hm). }
  simpl. rewrite Hi. simpl.
  by rewrite (proj2 (within5000_closeInTime _ _) Hclose).
Qed.

(** Whatever branch is taken, the log then knows the message. *)
Lemma receiveMessage_known (prev : list Message) (msg : Message) :
  known msg (receiveMessage me getTime msg prev).
Proof.
  unfold receiveMessage.
  destruct (JS.some _ prev) eqn:Hsome; [by apply known_some|].
  unfold mergeOptimistic.
  destruct (bool_decide (fromUserId msg = me));
    [|exists msg; split; [apply elem_of_snoc | done]].
  destruct (JS.findIndex (optimisticFor msg) prev) as [i|] eqn:Hidx; simpl;
    [|exists msg; split; [apply elem_of_snoc | done]].
  destruct (prev !! i) as [P|] eqn:Hi; simpl;
    [|exists msg; split; [apply elem_of_snoc | done]].
  destruct (within5000 getTime (timestamp P) (timestamp msg)); simpl;
    [|exists msg; split; [apply elem_of_snoc | done]].
  exists (confirmed P msg). split; [|done].
  apply list_elem_of_lookup. exists i.
  apply list_lookup_insert_eq. by eapply lookup_lt_Some.
Qed.

(** X20. Let the incoming message come from the local user and
    carry an identity the log does not know yet. If [P], at position [i], is
    the earliest entry of the log that is a placeholder (identity shorter than
    20) with the message's content and type, and the two timestamps are less
    than 5000 ms apart, then the merge replaces [P] in place: the log keeps
    its length, position [i] now holds an entry with the incoming identity and
    status [sent], and every other position is as before. *)
Theorem receiveMessage_confirms_first_candidate
    (prev : list Message) (msg P : Message) (i : nat) :
  fromUserId msg = me →
  ¬ known msg prev →
  prev !! i = Some P →
  candidate msg P →
  (∀ j m, (j < i)%nat → prev !! j = Some m → ¬ candidate msg m) →
  closeInTime getTime (timestamp P) (timestamp msg) →
  let log := receiveMessage me getTime msg prev in
  length log = length prev ∧
  (∃ P', log !! i = Some P' ∧ _id P' = _id msg ∧ status P' = Some sent) ∧
  (∀ j, j ≠ i → log !! j = prev !! j).
Proof.
  intros Hme Hnew Hi Hcand Hfirst Hclose log. subst log.
  rewrite (receiveMessage_merge prev msg P i) by done.
  split; [apply length_insert|]. split.
  - exists (confirmed P msg). split; [|done].
    apply list_lookup_insert_eq. by eapply lookup_lt_Some.
  - intros j Hj. by apply list_lookup_insert_ne.
Qed.

(** X21. If an entry with the identity of the incoming message is already in
    the log, the merge of [handleReceiveMessage] returns the log as it is; and after one application
    the log knows the message, so a second application of the same event
    returns the log of the first, its length included. *)
Theorem receiveMessage_idempotent (prev : list Message) (msg : Message) :
  (known msg prev → receiveMessage me getTime msg prev = prev) ∧
  (let log := receiveMessage me getTime msg prev in
   receiveMessage me getTime msg log = log ∧
   length (receiveMessage me getTime msg log) = length log).
Proof.
  assert (∀ l, known msg l → receiveMessage me getTime msg l = l) as Hknown.
  { intros l H. unfold receiveMessage.
    by rewrite (proj2 (known_some msg l) H). }
  split; [apply Hknown|]. intros log.
  assert (receiveMessage me getTime msg log = log) as ->; [|done].
  apply Hknown, receiveMessage_known.
Qed.

(** C10. A send-confirmation returns a log of the length it was given. Each
    position holds either the entry it held or that entry acknowledged, and it
    is the latter only for an entry sent by the local user, with a placeholder
    identity, the confirmation's content and a timestamp less than 5000 ms
    from the confirmation's. *)
Theorem messageSent_frame (data : Message) (prev : list Message) :
  let log := messageSent me getTime data prev in
  length log = length prev ∧
  (∀ i, log !! i = None ↔ prev !! i = None) ∧
  (∀ i msg, prev !! i = Some msg →
     (log !! i = Some msg ∨ log !! i = Some (acknowledged msg data)) ∧
     (log !! i ≠ Some msg →
        fromUserId msg = me ∧ (idLength msg < 20)%nat ∧
        content msg = content data ∧
        closeInTime getTime (timestamp data) (timestamp msg))).
Proof.
  intros log. subst log. unfold messageSent.
  split; [apply length_fmap|]. split.
  - intros i. rewrite list_lookup_fmap. by destruct (prev !! i).
  - intros i msg Hi. rewrite list_lookup_fmap, Hi. simpl.
    destruct (sentMatches me getTime data msg) eqn:Hm.
    + split; [by right|]. intros _.
      unfold sentMatches in Hm.
      apply andb_true_iff in Hm as [Hm Hclose].
      apply andb_true_iff in Hm as [Hm Hid].
      apply andb_true_iff in Hm as [Hfrom Hcontent].
      apply bool_decide_eq_true in Hid, Hfrom, Hcontent.
      by apply within5000_closeInTime in Hclose.
    + split; [by left | done].
Qed.

End Matcher.

(** X20, run: the echo of the first "hi" is merged into the first of the two
    placeholders. *)
Lemma receiveMessage_confirms_first_candidate_run :
  let log := receiveMessage "alice" JS.isoTime echo1 [hi1; hi2] in
  length log = length [hi1; hi2] ∧
  (∃ P', log !! 0%nat = Some P' ∧ _id P' = _id echo1 ∧ status P' = Some sent) ∧
  (∀ j, j ≠ 0%nat → log !! j = [hi1; hi2] !! j).
Proof.
  apply (receiveMessage_confirms_first_candidate
           "alice" JS.isoTime [hi1; hi2] echo1 hi1 0).
  - reflexivity.
  - intros H. apply known_some in H. vm_compute in H. discriminate.
  - reflexivity.
  - apply (proj1 (optimisticFor_candidate echo1 hi1)). reflexivity.
  - intros j m Hj. lia.
  - apply (proj1 (within5000_closeInTime JS.isoTime _ _)). reflexivity.
Defined.

(** X21, run: the echo delivered twice. *)
Lemma receiveMessage_idempotent_run :
  let log := receiveMessage "alice" JS.isoTime echo1 [hi1; hi2] in
  receiveMessage "alice" JS.isoTime echo1 log = log.
Proof.
  apply (proj1 (receiveMessage_idempotent "alice" JS.isoTime
                  (receiveMessage "alice" JS.isoTime echo1 [hi1; hi2]) echo1)).
  apply known_some. reflexivity.
Defined.

(** C10, run: a confirmation of "hi" against a log whose only entry came from
    Bob changes nothing. *)
Lemma messageSent_frame_run :
  let theirs := fromServer "65e1c0a4f1d2b3a4c5d6e7f9" "bob" "alice" "hi"
                  "2024-03-01T12:00:00.100Z" in
  messageSent "alice" JS.isoTime echo1 [theirs] !! 0%nat = Some theirs.
Proof.
  intros theirs.
  destruct (messageSent_frame "alice" JS.isoTime echo1 [theirs]) as (_ & _ & H).
  destruct (H 0%nat theirs eq_refl) as [[Hsame | Hack] _]; [exact Hsame|].
  vm_compute in Hack. discriminate.
Defined.

(** C2, the failing run. Alice has sent "hi" twice, one second apart; both
    entries are placeholders. One send-confirmation for "hi" arrives: it is
    written onto both entries, which then carry the same durable identity. *)
Theorem handleMessageSent_confirms_both :
  let log := messages (handleMessageSent alice JS.isoTime echo1 afterTwoSends) in
  messages afterTwoSends = [hi1; hi2] ∧
  log = [acknowledged hi1 echo1; acknowledged hi2 echo1] ∧
  _id <$> log = [_id echo1; _id echo1].
Proof. vm_compute. done. Qed.

(** C1, the failing run. Alice sent "hi" an hour ago and its echo never
    came; she sends "hi" again and the echo of this one arrives 200 ms later.
    The log holds a placeholder with the echo's content and type less than
    5000 ms from it, the second "hi"; but [findIndex] stops at the older
    "hi", which has the content and the type, its timestamp is then the only
    one compared, and the echo is appended: the log grows by one and the
    second "hi" keeps its placeholder identity. The send-confirmation path
    tests the timestamp of every entry, and confirms the second "hi" in
    place from the same state and the same data. *)
Theorem receiveMessage_blocked_by_stale_placeholder :
  let s := afterStaleSend in
  let s' := handleReceiveMessage alice JS.isoTime echo1 s in
  messages s = [hi0; hi1] ∧
  fromUserId echo1 = User.userId alice ∧
  ¬ known echo1 (messages s) ∧
  (candidate echo1 hi1 ∧ closeInTime JS.isoTime (timestamp hi1) (timestamp echo1)) ∧
  (candidate echo1 hi0 ∧ ¬ closeInTime JS.isoTime (timestamp hi0) (timestamp echo1)) ∧
  messages s' = [hi0; hi1; echo1] ∧
  length (messages s') = S (length (messages s)) ∧
  messages s' !! 1%nat = Some hi1 ∧
  messages (handleMessageSent alice JS.isoTime echo1 s) = [hi0; acknowledged hi1 echo1].
Proof.
  assert (messages afterStaleSend = [hi0; hi1]) as Hlog by (vm_compute; reflexivity).
  split; [exact Hlog|]. split; [reflexivity|]. split.
  { rewrite Hlog. intros H. apply known_some in H. vm_compute in H. discriminate. }
  split.
  { split; [apply (proj1 (optimisticFor_candidate echo1 hi1)); vm_compute; reflexivity|].
    apply (proj1 (within5000_closeInTime JS.isoTime _ _)). vm_compute. reflexivity. }
  split.
  { split; [apply (proj1 (optimisticFor_candidate echo1 hi0)); vm_compute; reflexivity|].
    intros H. apply (proj2 (within5000_closeInTime JS.isoTime _ _)) in H.
    vm_compute in H. discriminate. }
  split; [vm_compute; reflexivity|].
  split; [vm_compute; reflexivity|].
  split; vm_compute; reflexivity.
Qed.

(** C3, the failing run. Alice has sent "hi" twice, one second apart, and
    the echo of the first has been merged: the log holds an entry with the
    echo's identity. A send-confirmation with that same identity then changes
    the log: [handleMessageSent] does not look for the identity, the second
    "hi" passes its tests and is given the identity of the first. The receive
    path, given the same state and the same data, returns the log as it
    is. *)
Theorem handleMessageSent_rewrites_known_identity :
  let s := run alice keys JS.isoTime afterTwoSends [receiveMessage_ echo1] in
  let s' := handleMessageSent alice JS.isoTime echo1 s in
  messages s = [confirmed hi1 echo1; hi2] ∧
  known echo1 (messages s) ∧
  messages s' = [confirmed hi1 echo1; acknowledged hi2 echo1] ∧
  messages s' ≠ messages s ∧
  _id <$> messages s' = [_id echo1; _id echo1] ∧
  messages (handleReceiveMessage alice JS.isoTime echo1 s) = messages s.
Proof.
  split; [vm_compute; reflexivity|]. split.
  { apply known_some. vm_compute. reflexivity. }
  split; [vm_compute; reflexivity|]. split.
  { intros H. vm_compute in H. discriminate. }
  split; vm_compute; reflexivity.
Qed.

(** ** Cancelling a timer touches the timer queue only *)

Ltac clear_frame :=
  intros; unfold clearSenderTimeout, clearReceiverTimeout;
  repeat case_match; simpl; congruence.

Lemma messages_clearSenderTimeout s : messages (clearSenderTimeout s) = messages s.
Proof. clear_frame. Qed.
Lemma messages_clearReceiverTimeout s : messages (clearReceiverTimeout s) = messages s.
Proof. clear_frame. Qed.
Lemma emitted_clearSenderTimeout s : emitted (clearSenderTimeout s) = emitted s.
Proof. clear_frame. Qed.
Lemma emitted_clearReceiverTimeout s : emitted (clearReceiverTimeout s) = emitted s.
Proof. clear_frame. Qed.
Lemma socket_clearSenderTimeout s : socket (clearSenderTimeout s) = socket s.
Proof. clear_frame. Qed.
Lemma socket_clearReceiverTimeout s : socket (clearReceiverTimeout s) = socket s.
Proof. clear_frame. Qed.
Lemma isTyping_clearSenderTimeout s : isTyping (clearSenderTimeout s) = isTyping s.
Proof. clear_frame. Qed.
Lemma isTyping_clearReceiverTimeout s : isTyping (clearReceiverTimeout s) = isTyping s.
Proof. clear_frame. Qed.
Lemma now_clearSenderTimeout s : now (clearSenderTimeout s) = now s.
Proof. clear_frame. Qed.
Lemma now_clearReceiverTimeout s : now (clearReceiverTimeout s) = now s.
Proof. clear_frame. Qed.
Lemma nextHandle_clearSenderTimeout s : nextHandle (clearSenderTimeout s) = nextHandle s.
Proof. clear_frame. Qed.
Lemma nextHandle_clearReceiverTimeout s : nextHandle (clearReceiverTimeout s) = nextHandle s.
Proof. clear_frame. Qed.
Lemma senderRef_clearSenderTimeout s :
  senderTypingTimeoutRef (clearSenderTimeout s) = senderTypingTimeoutRef s.
Proof. clear_frame. Qed.
Lemma senderRef_clearReceiverTimeout s :
  senderTypingTimeoutRef (clearReceiverTimeout s) = senderTypingTimeoutRef s.
Proof. clear_frame. Qed.
Lemma receiverRef_clearSenderTimeout s :
  receiverTypingTimeoutRef (clearSenderTimeout s) = receiverTypingTimeoutRef s.
Proof. clear_frame. Qed.
Lemma receiverRef_clearReceiverTimeout s :
  receiverTypingTimeoutRef (clearReceiverTimeout s) = receiverTypingTimeoutRef s.
Proof. clear_frame. Qed.

Create Rewrite HintDb frame.
#[global] Hint Rewrite
  messages_clearSenderTimeout messages_clearReceiverTimeout
  emitted_clearSenderTimeout emitted_clearReceiverTimeout
  socket_clearSenderTimeout socket_clearReceiverTimeout
  isTyping_clearSenderTimeout isTyping_clearReceiverTimeout
  now_clearSenderTimeout now_clearReceiverTimeout
  nextHandle_clearSenderTimeout nextHandle_clearReceiverTimeout
  senderRef_clearSenderTimeout senderRef_clearReceiverTimeout
  receiverRef_clearSenderTimeout receiverRef_clearReceiverTimeout : frame.

(** ** Local actions: recall, delete, send *)

Section Actions.

Variable user : User.t.
Variable t : string → string.

(** C4 (as amended). For an identity shorter than 20, recall and delete
    leave the log as it is and emit nothing; when moreover the identity is
    not empty and the socket is there, all either of them does is show the
    still-syncing notice. *)
Theorem placeholder_recall_delete_rejected (id deletedAt : string) (s : Chat) :
  (String.length id < 20)%nat →
  let r := handleRecallMessage user t (Some id) s in
  let d := handleDeleteMessage user t (Some id) deletedAt s in
  messages r = messages s ∧ emitted r = emitted s ∧
  messages d = messages s ∧ emitted d = emitted s ∧
  (socket s = true → id ≠ "" →
     r = showToast stillSyncing Toast.info s ∧
     d = showToast stillSyncing Toast.info s).
Proof using Type.
  intros Hlen r d. subst r d.
  unfold handleRecallMessage, handleDeleteMessage.
  rewrite !bool_decide_eq_true_2 by done.
  destruct (socket s), id as [|c id']; simpl; repeat split; try done.
Qed.

(** C6 (as amended). A delete naming an identity appends one record
    [{actor, deletedAt}] to the [deletedBy] of each entry carrying that
    identity, after the records already there and whether or not its actor is
    among them, and changes nothing else of the entry; every other entry is
    left as it was. A message-deleted event does so for whatever identity and
    actor it names; a local delete does so, with the local user as the actor,
    for an identity of 20 code units or more when the socket is there, and
    leaves the log as it is otherwise. *)
Theorem delete_appends_one_record (messageId actor deletedAt : string)
    (s : Chat) (i : nat) (m : Message) :
  messages s !! i = Some m →
  let remote := handleMessageDeleted messageId actor deletedAt s in
  let local := handleDeleteMessage user t (Some messageId) deletedAt s in
  (∃ m', messages remote !! i = Some m' ∧
         if bool_decide (_id m = Some messageId)
         then gainsDeletion m m' {| by_userId := actor; deletedAt := deletedAt |}
         else m' = m) ∧
  (socket s = true → (20 ≤ String.length messageId)%nat →
   ∃ m', messages local !! i = Some m' ∧
         if bool_decide (_id m = Some messageId)
         then gainsDeletion m m'
                {| by_userId := User.userId user; deletedAt := deletedAt |}
         else m' = m) ∧
  (socket s = false ∨ (String.length messageId < 20)%nat →
   messages local = messages s).
Proof using Type.
  intros Hi remote local. subst remote local. split; [|split].
  - unfold handleMessageDeleted, messageDeleted. simpl.
    rewrite list_lookup_fmap, Hi. simpl. eexists. split; [reflexivity|].
    by destruct (bool_decide (_id m = Some messageId)).
  - intros Hsock Hlen.
    assert (JS.truthy messageId = true) as Htruthy.
    { destruct messageId; [simpl in Hlen; lia | done]. }
    unfold handleDeleteMessage. rewrite Hsock, Htruthy.
    rewrite (bool_decide_eq_false_2 (String.length messageId < 20)%nat) by lia. simpl.
    unfold messageDeleted. rewrite list_lookup_fmap, Hi. simpl.
    eexists. split; [reflexivity|].
    by destruct (bool_decide (_id m = Some messageId)).
  - intros Hwhy. unfold handleDeleteMessage.
    destruct (socket s); simpl; [|done].
    destruct Hwhy as [?|Hshort]; [done|].
    destruct (JS.truthy messageId); simpl; [|done].
    by rewrite (bool_decide_eq_true_2 (String.length messageId < 20)%nat).
Qed.

End Actions.

(** C4, run: recalling or deleting the first "hi" while its identity is
    still the placeholder only shows the still-syncing notice. *)
Lemma placeholder_recall_delete_rejected_run :
  handleRecallMessage alice keys (Some "x7f3a2b1c") afterTwoSends
    = showToast stillSyncing Toast.info afterTwoSends ∧
  handleDeleteMessage alice keys (Some "x7f3a2b1c") "2024-03-01T12:00:03.000Z" afterTwoSends
    = showToast stillSyncing Toast.info afterTwoSends.
Proof.
  destruct (placeholder_recall_delete_rejected alice keys
              "x7f3a2b1c" "2024-03-01T12:00:03.000Z" afterTwoSends)
    as (_ & _ & _ & _ & H).
  - vm_compute. lia.
  - apply H; [reflexivity | discriminate].
Defined.

(** C4 as stated fails for the empty identity (and for an absent one, which
    is what an image sent locally has): recall shows the general failure
    notice, delete shows nothing, and neither shows the still-syncing notice. *)
Lemma empty_identity_gets_no_syncing_notice :
  let s := afterTwoSends in
  let syncing := {| Toast.message := stillSyncing; Toast.type := Toast.info |} in
  let failure := {| Toast.message := "action.failed"; Toast.type := Toast.error |} in
  (String.length "" < 20)%nat ∧
  socket s = true ∧
  toasts (handleRecallMessage alice keys (Some "") s) = toasts s ++ [failure] ∧
  toasts (handleRecallMessage alice keys None s) = toasts s ++ [failure] ∧
  toasts (handleDeleteMessage alice keys (Some "") "2024-03-01T12:00:03.000Z" s) = toasts s ∧
  toasts (handleDeleteMessage alice keys None "2024-03-01T12:00:03.000Z" s) = toasts s ∧
  (syncing ∉ toasts (handleRecallMessage alice keys (Some "") s)) ∧
  (syncing ∉ toasts (handleDeleteMessage alice keys (Some "") "2024-03-01T12:00:03.000Z" s)).
Proof.
  split; [simpl; lia|]. do 5 (split; [reflexivity|]).
  split; vm_compute; intros H.
  - apply list_elem_of_singleton in H. discriminate.
  - by apply elem_of_nil in H.
Qed.

(** C5 as stated fails, twice. The record [sendMessage] appends for a text
    has the status [sent] from the start, not [sending]. And the record of a
    voice message, created [sending], takes the status [sent] when its upload
    succeeds: no echo has come and its identity is still the placeholder. *)
Lemma status_sent_before_any_echo :
  let recordedAt := "2024-03-01T12:00:05.000Z" in
  let recorded :=
    run alice keys JS.isoTime bobWrote
      [voiceRecorded "blob:1" 3 recordedAt "0.v1c2e3f4g"] in
  let settled :=
    run alice keys JS.isoTime recorded
      [voiceSettled bob "blob:1" 3 recordedAt "0.v1c2e3f4g" (Some "/uploads/v.webm")] in
  (messages (sendMessage alice "2024-03-01T12:00:00.000Z" "0.x7f3a2b1c" hiTyped)
     = messages hiTyped ++ [hi1] ∧
   status hi1 = Some sent ∧
   status hi1 ≠ Some sending) ∧
  (status <$> messages recorded = [None; Some sending] ∧
   status <$> messages settled = [None; Some sent] ∧
   isPlaceholder <$> messages settled = [false; true] ∧
   emitted settled
   = emitted bobWrote
     ++ [Emit.sendMessage (voicePayload alice bob "/uploads/v.webm" 3 recordedAt)]).
Proof.
  split.
  - split; [vm_compute; reflexivity|]. split; [reflexivity | discriminate].
  - repeat split; vm_compute; reflexivity.
Qed.

(** C6, run: Bob deletes his message; Alice's log records him with the
    instant of the deletion. *)
Lemma delete_appends_one_record_run :
  ∃ m', messages (handleMessageDeleted "65e1c0a4f1d2b3a4c5d6e7f9" "bob"
                    "2024-03-01T12:01:00.000Z" bobWrote) !! 0%nat = Some m' ∧
        deletedBy m' = Some [{| by_userId := "bob";
                                deletedAt := "2024-03-01T12:01:00.000Z" |}].
Proof.
  destruct (delete_appends_one_record alice keys
              "65e1c0a4f1d2b3a4c5d6e7f9" "bob" "2024-03-01T12:01:00.000Z"
              bobWrote 0 fromBob) as [(m' & Hm' & Hd) _].
  - reflexivity.
  - exists m'. split; [exact Hm'|].
    simpl in Hd. destruct Hd as [_ Hd]. exact Hd.
Defined.

(** C6 as stated fails: the message-deleted event for Bob's delete, delivered
    twice, records Bob twice; so does Alice's own delete followed by the
    event that reports it. *)
Lemma deletedBy_repeats_actor :
  let id := "65e1c0a4f1d2b3a4c5d6e7f9" in
  let twice := run alice keys JS.isoTime bobWrote
                 [ messageDeleted_ id "bob" "2024-03-01T12:01:00.000Z";
                   messageDeleted_ id "bob" "2024-03-01T12:01:00.000Z" ] in
  let echoed := run alice keys JS.isoTime bobWrote
                  [ deleteClicked (Some id) "2024-03-01T12:01:00.000Z";
                    messageDeleted_ id "alice" "2024-03-01T12:01:00.050Z" ] in
  deleters <$> messages twice = [["bob"; "bob"]] ∧
  deleters <$> messages echoed = [["alice"; "alice"]] ∧
  ¬ NoDup ["bob"; "bob"] ∧ ¬ NoDup ["alice"; "alice"].
Proof.
  split; [reflexivity|]. split; [reflexivity|].
  split; intros H; apply NoDup_cons in H as [H _]; apply H; by left.
Qed.

(** ** Recall is terminal *)

(** Timers coming due never touch the log. *)
Lemma messages_fire tm s : messages (fire tm s) = messages s.
Proof. unfold fire. by destruct (callback tm). Qed.

Lemma messages_runTimers fuel t s : messages (runTimers fuel t s) = messages s.
Proof.
  revert s. induction fuel as [|fuel IH]; intros s; simpl; [done|].
  destruct (nextDue t (timers s)); [|done].
  by rewrite IH, messages_fire.
Qed.

Lemma messages_elapse ms s : messages (elapse ms s) = messages s.
Proof. unfold elapse. simpl. apply messages_runTimers. Qed.

(** An updater that maps [f] over the log keeps recalled entries recalled
    when [f] does. *)
Lemma fmap_staysRecalled (f : Message → Message) (log : list Message) i m :
  (∀ x, isRecalled x = Some true → staysRecalled x (f x)) →
  log !! i = Some m →
  isRecalled m = Some true →
  ∃ m', (f <$> log) !! i = Some m' ∧ staysRecalled m m'.
Proof.
  intros Hf Hi Hm. exists (f m). rewrite list_lookup_fmap, Hi. split; [done | by apply Hf].
Qed.

Lemma staysRecalled_refl m : isRecalled m = Some true → staysRecalled m m.
Proof. by split. Qed.

Lemma app_staysRecalled (log : list Message) (x : Message) i m :
  log !! i = Some m →
  isRecalled m = Some true →
  ∃ m', (log ++ [x]) !! i = Some m' ∧ staysRecalled m m'.
Proof.
  intros Hi Hm. exists m. split; [|by apply staysRecalled_refl].
  rewrite lookup_app_l; [done | by eapply lookup_lt_Some].
Qed.

Section Recall.

Variable user : User.t.
Variable t : string → string.
Variable getTime : string → option Z.

Lemma receiveMessage_staysRecalled (msg : Message) (log : list Message) i m :
  log !! i = Some m →
  isRecalled m = Some true →
  (20 ≤ idLength m)%nat ∨ isRecalled msg ≠ Some false →
  ∃ m', receiveMessage (User.userId user) getTime msg log !! i = Some m'
        ∧ staysRecalled m m'.
Proof using Type.
  intros Hi Hm Hok. unfold receiveMessage.
  destruct (JS.some _ log); [exists m; split; [done | by apply staysRecalled_refl]|].
  unfold mergeOptimistic.
  destruct (bool_decide (fromUserId msg = User.userId user)); simpl;
    [|by apply app_staysRecalled].
  destruct (JS.findIndex (optimisticFor msg) log) as [k|] eqn:Hk; simpl;
    [|by apply app_staysRecalled].
  destruct (log !! k) as [P|] eqn:HP; simpl; [|by apply app_staysRecalled].
  destruct (within5000 getTime (timestamp P) (timestamp msg)); simpl;
    [|by apply app_staysRecalled].
  destruct (decide (k = i)) as [->|Hne].
  - assert (P = m) as -> by congruence.
    exists (confirmed m msg). split.
    { apply list_lookup_insert_eq. by eapply lookup_lt_Some. }
    apply findIndex_Some in Hk as [(x & Hx & Hopt) _].
    assert (x = m) as -> by congruence.
    apply optimisticFor_candidate in Hopt as [Hshort _].
    destruct Hok as [Hdur|Hmsg]; [lia|].
    split; [|lia]. simpl. rewrite Hm.
    destruct (isRecalled msg) as [[|]|]; simpl; congruence.
  - exists m. split; [|by apply staysRecalled_refl].
    rewrite list_lookup_insert_ne; done.
Qed.

(** One event, other than those that replace the log. *)
Lemma step_staysRecalled (e : Event) (s : Chat) i m :
  replacesLog e = false →
  messages s !! i = Some m →
  isRecalled m = Some true →
  (20 ≤ idLength m)%nat ∨ unrecalls e = false →
  ∃ m', messages (step user t getTime s e) !! i = Some m' ∧ staysRecalled m m'.
Proof using Type.
  intros He Hi Hm Hok.
  assert (∃ m', messages s !! i = Some m' ∧ staysRecalled m m') as Hsame.
  { exists m. split; [done | by apply staysRecalled_refl]. }
  destruct e; simpl in *; try discriminate; try exact Hsame.
  - (* receiveMessage *)
    unfold handleReceiveMessage.
    destruct (activeChat s) as [chat|]; [|exact Hsame].
    destruct (_ || _); [|exact Hsame].
    assert (∃ m', receiveMessage (User.userId user) getTime msg (messages s) !! i
                  = Some m' ∧ staysRecalled m m') as H.
    { apply receiveMessage_staysRecalled; [done..|].
      destruct Hok as [?|Hok]; [by left | right].
      by apply bool_decide_eq_false in Hok. }
    destruct (bool_decide (fromUserId msg = Friend.userId chat)); simpl;
      by rewrite messages_clearReceiverTimeout.
  - (* messageSent *)
    apply fmap_staysRecalled; [|done..].
    intros x Hx. destruct (sentMatches _ _ _ x) eqn:Hmatch;
      [|by apply staysRecalled_refl].
    split; [done|]. intros Hdur. unfold sentMatches in Hmatch.
    apply andb_true_iff in Hmatch as [Hmatch _].
    apply andb_true_iff in Hmatch as [_ Hshort].
    apply bool_decide_eq_true in Hshort. lia.
  - (* messageRecalled *)
    apply fmap_staysRecalled; [|done..].
    intros x Hx. by destruct (bool_decide _).
  - (* messageDeleted *)
    apply fmap_staysRecalled; [|done..].
    intros x Hx. by destruct (bool_decide _).
  - (* messagesRead *)
    unfold handleMessagesRead. destruct (activeIs byUserId s); [|exact Hsame].
    apply fmap_staysRecalled; [|done..].
    intros x Hx. by destruct (bool_decide _).
  - (* userTyping *)
    unfold handleUserTyping. destruct (activeIs fromUserId0 s); [|exact Hsame].
    unfold armReceiverTimeout. simpl. by rewrite messages_clearReceiverTimeout.
  - (* userStopTyping *)
    unfold handleUserStopTyping. destruct (activeIs fromUserId0 s); [|exact Hsame].
    simpl. by rewrite messages_clearReceiverTimeout.
  - (* inputChanged *)
    unfold handleInputChange. destruct (activeChat s); [|exact Hsame].
    destruct (socket s); [|exact Hsame].
    destruct (bool_decide _); unfold armSenderTimeout; simpl;
      by rewrite messages_clearSenderTimeout.
  - (* sendClicked *)
    unfold sendMessage. destruct (activeChat s); [|exact Hsame].
    destruct (_ || _); [exact Hsame|]. simpl.
    rewrite messages_clearSenderTimeout. by apply app_staysRecalled.
  - (* recallClicked *)
    unfold handleRecallMessage. destruct messageId as [id|]; [|exact Hsame].
    destruct (_ || _); [exact Hsame|].
    destruct (bool_decide _); [exact Hsame|]. simpl.
    apply fmap_staysRecalled; [|done..].
    intros x Hx. by destruct (bool_decide _).
  - (* deleteClicked *)
    unfold handleDeleteMessage. destruct messageId as [id|]; [|exact Hsame].
    destruct (_ || _); [exact Hsame|].
    destruct (bool_decide _); [exact Hsame|]. simpl.
    apply fmap_staysRecalled; [|done..].
    intros x Hx. by destruct (bool_decide _).
  - (* imageSettled *)
    unfold handleFileUpload_settled. destruct upload; [|exact Hsame].
    simpl. by apply app_staysRecalled.
  - (* voiceRecorded *)
    unfold handleVoiceRecorded. destruct (activeChat s); [|exact Hsame].
    destruct (socket s); [|exact Hsame].
    simpl. by apply app_staysRecalled.
  - (* voiceSettled *)
    unfold handleVoiceRecorded_settled. destruct upload; simpl;
      (apply fmap_staysRecalled; [|done..]); intros x Hx;
      destruct (bool_decide_reflect (_id x = Some (tempId random36))) as [Heq|];
      try (by apply staysRecalled_refl); by split.
  - (* elapsed *)
    by rewrite messages_runTimers.
Qed.

(** X22. Take a log entry with [isRecalled = true] and any
    sequence of events that update the log entry by entry (all of them but a
    conversation switch and the arrival of a history, which replace the log).
    If the entry's identity is durable (20 code units or more), or if no
    received message of the sequence carries [isRecalled = false], the entry
    is still there, at its position, and still recalled after the sequence;
    and a recalled entry is rendered as the notice, never as its content. *)
Theorem recall_is_terminal (events : list Event) (s : Chat) (i : nat) (m : Message) :
  Forall (λ e, replacesLog e = false) events →
  messages s !! i = Some m →
  isRecalled m = Some true →
  (20 ≤ idLength m)%nat ∨ Forall (λ e, unrecalls e = false) events →
  ∃ m', messages (run user t getTime s events) !! i = Some m' ∧
        isRecalled m' = Some true ∧
        ∀ isMe, ∃ label, MessageBubble t m' isMe = notice label.
Proof using Type.
  revert s m. induction events as [|e events IH]; intros s m Hkeep Hi Hm Hok.
  - exists m. split; [done|]. split; [done|].
    intros isMe. unfold MessageBubble. rewrite Hm. simpl. eauto.
  - apply Forall_cons in Hkeep as [He Hkeep]. simpl.
    destruct (step_staysRecalled e s i m) as (m1 & Hi1 & Hm1 & Hid); [done..| |].
    { destruct Hok as [?|Hok]; [by left | right].
      by apply Forall_cons in Hok as [? _]. }
    apply (IH _ m1); [done..|].
    destruct Hok as [Hdur|Hok].
    + left. unfold idLength in *. by rewrite (Hid Hdur).
    + right. by apply Forall_cons in Hok as [_ ?].
Qed.

End Recall.

(** ** The life of a locally created record *)

Lemma lifecycle_same (e : Event) (m m' : Message) :
  _id m' = _id m → status m' = status m → lifecycle e m m'.
Proof. intros Hid Hst. split; intros H; by destruct H. Qed.

Lemma fmap_lifecycle (e : Event) (f : Message → Message) (log : list Message) i m :
  (∀ x, lifecycle e x (f x)) →
  log !! i = Some m →
  ∃ m', (f <$> log) !! i = Some m' ∧ lifecycle e m m'.
Proof. intros Hf Hi. exists (f m). by rewrite list_lookup_fmap, Hi. Qed.

Lemma app_lifecycle (e : Event) (log : list Message) (x : Message) i m :
  log !! i = Some m →
  ∃ m', (log ++ [x]) !! i = Some m' ∧ lifecycle e m m'.
Proof.
  intros Hi. exists m. split; [|by apply lifecycle_same].
  rewrite lookup_app_l; [done | by eapply lookup_lt_Some].
Qed.

Section Lifecycle.

Variable user : User.t.
Variable t : string → string.
Variable getTime : string → option Z.

Lemma receiveMessage_lifecycle (msg : Message) (log : list Message) i m :
  log !! i = Some m →
  ∃ m', receiveMessage (User.userId user) getTime msg log !! i = Some m'
        ∧ lifecycle (receiveMessage_ msg) m m'.
Proof using Type.
  intros Hi. unfold receiveMessage.
  destruct (JS.some _ log); [exists m; split; [done | by apply lifecycle_same]|].
  unfold mergeOptimistic.
  destruct (bool_decide (fromUserId msg = User.userId user)); simpl;
    [|by apply app_lifecycle].
  destruct (JS.findIndex (optimisticFor msg) log) as [k|] eqn:Hk; simpl;
    [|by apply app_lifecycle].
  destruct (log !! k) as [P|] eqn:HP; simpl; [|by apply app_lifecycle].
  destruct (within5000 getTime (timestamp P) (timestamp msg)); simpl;
    [|by apply app_lifecycle].
  destruct (decide (k = i)) as [->|Hne].
  - assert (P = m) as -> by congruence.
    exists (confirmed m msg). split.
    { apply list_lookup_insert_eq. by eapply lookup_lt_Some. }
    apply findIndex_Some in Hk as [(x & Hx & Hopt) _].
    assert (x = m) as -> by congruence.
    apply optimisticFor_candidate in Hopt as [Hshort _].
    split; intros _; [by repeat split | left; split; [done | by left]].
  - exists m. split; [|by apply lifecycle_same].
    rewrite list_lookup_insert_ne; done.
Qed.

(** One event, other than those that replace the log. *)
Lemma step_lifecycle (e : Event) (s : Chat) i m :
  replacesLog e = false →
  messages s !! i = Some m →
  ∃ m', messages (step user t getTime s e) !! i = Some m' ∧ lifecycle e m m'.
Proof using Type.
  intros He Hi.
  assert (∃ m', messages s !! i = Some m' ∧ lifecycle e m m') as Hsame.
  { exists m. split; [done | by apply lifecycle_same]. }
  destruct e; simpl in *; try discriminate; try exact Hsame.
  - (* receiveMessage *)
    unfold handleReceiveMessage.
    destruct (activeChat s) as [chat|]; [|exact Hsame].
    destruct (_ || _); [|exact Hsame].
    pose proof (receiveMessage_lifecycle msg (messages s) i m Hi) as H.
    destruct (bool_decide (fromUserId msg = Friend.userId chat)); simpl;
      by rewrite messages_clearReceiverTimeout.
  - (* messageSent *)
    apply fmap_lifecycle; [|done].
    intros x. destruct (sentMatches _ _ _ x) eqn:Hmatch;
      [|by apply lifecycle_same].
    unfold sentMatches in Hmatch.
    apply andb_true_iff in Hmatch as [Hmatch _].
    apply andb_true_iff in Hmatch as [_ Hshort].
    apply bool_decide_eq_true in Hshort.
    split; intros _; [by repeat split | left; split; [done | by left]].
  - (* messageRecalled *)
    apply fmap_lifecycle; [|done].
    intros x. destruct (bool_decide _); by apply lifecycle_same.
  - (* messageDeleted *)
    apply fmap_lifecycle; [|done].
    intros x. destruct (bool_decide _); by apply lifecycle_same.
  - (* messagesRead *)
    unfold handleMessagesRead. destruct (activeIs byUserId s); [|exact Hsame].
    apply fmap_lifecycle; [|done].
    intros x. destruct (bool_decide _); by apply lifecycle_same.
  - (* userTyping *)
    unfold handleUserTyping. destruct (activeIs _ s); [|exact Hsame].
    unfold armReceiverTimeout. simpl. by rewrite messages_clearReceiverTimeout.
  - (* userStopTyping *)
    unfold handleUserStopTyping. destruct (activeIs _ s); [|exact Hsame].
    simpl. by rewrite messages_clearReceiverTimeout.
  - (* inputChanged *)
    unfold handleInputChange. destruct (activeChat s); [|exact Hsame].
    destruct (socket s); [|exact Hsame].
    destruct (bool_decide _); unfold armSenderTimeout; simpl;
      by rewrite messages_clearSenderTimeout.
  - (* sendClicked *)
    unfold sendMessage. destruct (activeChat s); [|exact Hsame].
    destruct (_ || _); [exact Hsame|]. simpl.
    rewrite messages_clearSenderTimeout. by apply app_lifecycle.
  - (* recallClicked *)
    unfold handleRecallMessage. destruct messageId as [id|]; [|exact Hsame].
    destruct (_ || _); [exact Hsame|].
    destruct (bool_decide _); [exact Hsame|]. simpl.
    apply fmap_lifecycle; [|done].
    intros x. destruct (bool_decide _); by apply lifecycle_same.
  - (* deleteClicked *)
    unfold handleDeleteMessage. destruct messageId as [id|]; [|exact Hsame].
    destruct (_ || _); [exact Hsame|].
    destruct (bool_decide _); [exact Hsame|]. simpl.
    apply fmap_lifecycle; [|done].
    intros x. destruct (bool_decide _); by apply lifecycle_same.
  - (* imageSettled *)
    unfold handleFileUpload_settled. destruct upload; [|exact Hsame].
    simpl. by apply app_lifecycle.
  - (* voiceRecorded *)
    unfold handleVoiceRecorded. destruct (activeChat s); [|exact Hsame].
    destruct (socket s); [|exact Hsame].
    simpl. by apply app_lifecycle.
  - (* voiceSettled *)
    unfold handleVoiceRecorded_settled. destruct upload; simpl;
      (apply fmap_lifecycle; [|done]); intros x;
      destruct (bool_decide_reflect (_id x = Some (tempId random36))) as [Heq|];
      try (by apply lifecycle_same);
      (split; [intros Hid; by destruct Hid|]); intros _;
      [left | right]; split; auto.
  - (* elapsed *)
    by rewrite messages_runTimers.
Qed.

(** C5 (as amended). A record created locally has a placeholder identity:
    at most 9 code units for a text or a voice message, none for an image;
    its status is [sending] for a voice message and [sent] for a text or an
    image. [sendMessage] and [handleVoiceRecorded] append such a record or
    leave the log as it is, a settled image upload appends one when it
    succeeded. Afterwards, as long as the log is not replaced, an entry's
    identity changes only when a received message or a send-confirmation is
    merged into it: it was a placeholder, it takes the incoming identity and
    its status is [sent]. Its status changes only to [sent], on such a merge
    or when a voice upload succeeds, or to [error], when a voice upload
    fails. *)
Theorem local_record_lifecycle :
  (∀ chat input timestamp random36 localUrl url duration,
     let txt := textMessage user chat input timestamp random36 in
     let vox := voiceMessage user chat localUrl duration timestamp random36 in
     let img := imageMessage user chat url timestamp in
     ((idLength txt ≤ 9)%nat ∧ isPlaceholder txt = true ∧ status txt = Some sent) ∧
     ((idLength vox ≤ 9)%nat ∧ isPlaceholder vox = true ∧ status vox = Some sending) ∧
     (_id img = None ∧ isPlaceholder img = true ∧ status img = Some sent)) ∧
  (∀ s timestamp random36 localUrl duration url chat',
     (messages (sendMessage user timestamp random36 s) = messages s ∨
      ∃ chat, activeChat s = Some chat ∧
              messages (sendMessage user timestamp random36 s)
              = messages s ++ [textMessage user chat (inputText s) timestamp random36]) ∧
     (messages (handleVoiceRecorded user localUrl duration timestamp random36 s)
      = messages s ∨
      ∃ chat, activeChat s = Some chat ∧
              messages (handleVoiceRecorded user localUrl duration timestamp random36 s)
              = messages s ++ [voiceMessage user chat localUrl duration timestamp random36]) ∧
     messages (handleFileUpload_settled user chat' (Some url) timestamp s)
     = messages s ++ [imageMessage user chat' url timestamp] ∧
     messages (handleFileUpload_settled user chat' None timestamp s) = messages s) ∧
  (∀ e s i m,
     replacesLog e = false →
     messages s !! i = Some m →
     ∃ m', messages (step user t getTime s e) !! i = Some m' ∧ lifecycle e m m').
Proof using Type.
  assert (∀ m, (idLength m ≤ 9)%nat → isPlaceholder m = true) as Hshort.
  { intros m Hm. apply bool_decide_eq_true. lia. }
  split; [|split].
  - intros chat input timestamp random36 localUrl url duration txt vox img.
    assert (idLength txt ≤ 9)%nat as Htxt by apply substr_length.
    assert (idLength vox ≤ 9)%nat as Hvox by apply substr_length.
    repeat split; auto.
  - intros s timestamp random36 localUrl duration url chat'.
    split; [|split; [|split; reflexivity]].
    + unfold sendMessage. destruct (activeChat s) as [chat|]; [|by left].
      destruct (_ || _); [by left|]. right. exists chat. split; [done|].
      simpl. by rewrite messages_clearSenderTimeout.
    + unfold handleVoiceRecorded. destruct (activeChat s) as [chat|]; [|by left].
      destruct (socket s); [|by left]. right. by exists chat.
  - intros e s i m. apply step_lifecycle.
Qed.

End Lifecycle.

(** C5, run: Alice's "hi" is created as a placeholder with status [sent];
    its echo gives it the durable identity, and only then. *)
Lemma local_record_lifecycle_run :
  status hi1 = Some sent ∧
  ∃ m', messages (step alice keys JS.isoTime afterTwoSends (receiveMessage_ echo1)) !! 0%nat
          = Some m' ∧ lifecycle (receiveMessage_ echo1) hi1 m'.
Proof.
  destruct (local_record_lifecycle alice keys JS.isoTime) as (Hnew & _ & Hstep).
  split.
  - apply (Hnew bob "hi" "2024-03-01T12:00:00.000Z" "0.x7f3a2b1c" "" "" 0).
  - apply Hstep; [reflexivity | vm_compute; reflexivity].
Defined.

(** ** The typing guard *)

(** *** Cancelling and firing *)

Lemma NoDup_handles_filter (P : Timer → Prop) `{∀ tm, Decision (P tm)} (tms : list Timer) :
  NoDup (handle <$> tms) → NoDup (handle <$> filter P tms).
Proof.
  intros Hnodup. eapply sublist_NoDup; [exact Hnodup|].
  apply fmap_sublist, sublist_filter.
Qed.

Lemma timers_clearTimeout h s :
  timers (clearTimeout h s) = filter (λ tm, handle tm ≠ h) (timers s).
Proof. reflexivity. Qed.

Lemma elem_of_timers_clearTimeout tm h s :
  tm ∈ timers (clearTimeout h s) ↔ handle tm ≠ h ∧ tm ∈ timers s.
Proof.
  rewrite timers_clearTimeout.
  exact (list_elem_of_filter (λ x, handle x ≠ h) (timers s) tm).
Qed.

Lemma tidy_clearTimeout h s : tidy s → tidy (clearTimeout h s).
Proof.
  intros (Hsock & Hnodup & Hlt & Htr). repeat split.
  - exact Hsock.
  - rewrite timers_clearTimeout. by apply NoDup_handles_filter.
  - intros tm [_ Hin]%elem_of_timers_clearTimeout. by apply Hlt.
  - intros tm [_ Hin]%elem_of_timers_clearTimeout. by apply (Htr tm).
Qed.

Lemma tidy_clearSenderTimeout s : tidy s → tidy (clearSenderTimeout s).
Proof.
  unfold clearSenderTimeout. destruct (senderTypingTimeoutRef s); [|done].
  apply tidy_clearTimeout.
Qed.

Lemma tidy_clearReceiverTimeout s : tidy s → tidy (clearReceiverTimeout s).
Proof.
  unfold clearReceiverTimeout. destruct (receiverTypingTimeoutRef s); [|done].
  apply tidy_clearTimeout.
Qed.

(** Once the receiver's timer is cancelled no [clearIsTyping] is pending. *)
Lemma clearReceiverTimeout_no_clearIsTyping s tm :
  tidy s → tm ∈ timers (clearReceiverTimeout s) → callback tm ≠ clearIsTyping.
Proof.
  intros (_ & _ & _ & Htr) Hin Hcb.
  unfold clearReceiverTimeout in Hin.
  destruct (receiverTypingTimeoutRef s) as [h|] eqn:Href.
  - apply elem_of_timers_clearTimeout in Hin as [Hne Hin].
    specialize (Htr tm Hin). unfold tracked in Htr. rewrite Hcb in Htr. congruence.
  - specialize (Htr tm Hin). unfold tracked in Htr. rewrite Hcb in Htr. congruence.
Qed.

(** Once the sender's timer is cancelled no [emitStopTyping] is pending. *)
Lemma clearSenderTimeout_no_emitStopTyping s tm from to :
  tidy s → tm ∈ timers (clearSenderTimeout s) → callback tm ≠ emitStopTyping from to.
Proof.
  intros (_ & _ & _ & Htr) Hin Hcb.
  unfold clearSenderTimeout in Hin.
  destruct (senderTypingTimeoutRef s) as [h|] eqn:Href.
  - apply elem_of_timers_clearTimeout in Hin as [Hne Hin].
    specialize (Htr tm Hin). unfold tracked in Htr. rewrite Hcb in Htr. congruence.
  - specialize (Htr tm Hin). unfold tracked in Htr. rewrite Hcb in Htr. congruence.
Qed.

(** Queuing a timer under the next handle, given that no pending timer has
    the new one's kind of callback. *)
Lemma tidy_setTimeout (cb : Callback) (delay : Z) (s s' : Chat) :
  tidy s →
  socket s' = true →
  timers s' = timers s ++ [{| handle := nextHandle s; due := now s + delay; callback := cb |}] →
  nextHandle s' = Pos.succ (nextHandle s) →
  (∀ tm, tm ∈ timers s → tracked s' tm) →
  tracked s' {| handle := nextHandle s; due := now s + delay; callback := cb |} →
  tidy s'.
Proof.
  intros (Hsock & Hnodup & Hlt & Htr) Hsock' Htimers Hnext Hold Hnew.
  repeat split.
  - exact Hsock'.
  - rewrite Htimers, fmap_app. apply NoDup_app. split; [done|]. split.
    + intros h Hh Hh'. apply list_elem_of_singleton in Hh'. simpl in Hh'.
      apply list_elem_of_fmap in Hh as (tm & -> & Hin).
      specialize (Hlt tm Hin). lia.
    + apply NoDup_singleton.
  - intros tm. rewrite Htimers, Hnext, elem_of_app, list_elem_of_singleton.
    intros [Hin| ->]; [specialize (Hlt tm Hin)|simpl]; lia.
  - intros tm. rewrite Htimers, elem_of_app, list_elem_of_singleton.
    intros [Hin| ->]; [by apply Hold | exact Hnew].
Qed.

Lemma tidy_rearm_receiver (delay : Z) (s : Chat) :
  tidy s → tidy (armReceiverTimeout clearIsTyping delay (clearReceiverTimeout s)).
Proof.
  intros Htidy.
  apply (tidy_setTimeout clearIsTyping delay (clearReceiverTimeout s));
    [by apply tidy_clearReceiverTimeout | | reflexivity | reflexivity | | reflexivity].
  - simpl. rewrite socket_clearReceiverTimeout. apply Htidy.
  - intros tm Hin.
    pose proof (clearReceiverTimeout_no_clearIsTyping s tm Htidy Hin) as Hcb.
    apply tidy_clearReceiverTimeout in Htidy as (_ & _ & _ & Htr).
    specialize (Htr tm Hin). unfold tracked in *.
    destruct (callback tm); [exact Htr | done].
Qed.

Lemma tidy_rearm_sender (from to : string) (delay : Z) (s : Chat) :
  tidy s → tidy (armSenderTimeout (emitStopTyping from to) delay (clearSenderTimeout s)).
Proof.
  intros Htidy.
  apply (tidy_setTimeout (emitStopTyping from to) delay (clearSenderTimeout s));
    [by apply tidy_clearSenderTimeout | | reflexivity | reflexivity | | reflexivity].
  - simpl. rewrite socket_clearSenderTimeout. apply Htidy.
  - intros tm Hin.
    apply tidy_clearSenderTimeout in Htidy as Htidy'.
    destruct Htidy' as (_ & _ & _ & Htr).
    specialize (Htr tm Hin). unfold tracked in *.
    destruct (callback tm) as [f' t'|] eqn:Hcb; [|exact Htr].
    by destruct (clearSenderTimeout_no_emitStopTyping s tm f' t' Htidy Hin).
Qed.

(** The fields [tidy] reads. *)
Lemma tidy_ext (s s' : Chat) :
  socket s' = socket s →
  timers s' = timers s →
  nextHandle s' = nextHandle s →
  senderTypingTimeoutRef s' = senderTypingTimeoutRef s →
  receiverTypingTimeoutRef s' = receiverTypingTimeoutRef s →
  tidy s → tidy s'.
Proof.
  unfold tidy, tracked. intros -> -> -> -> ->. done.
Qed.

Ltac tidy_same := eapply tidy_ext; [reflexivity..|].

Lemma nextDue_Some t tms tm :
  nextDue t tms = Some tm → tm ∈ tms ∧ due tm <= t.
Proof.
  revert tm. induction tms as [|x rest IH]; intros tm; simpl; [done|].
  destruct (nextDue t rest) as [tm'|].
  - destruct (IH tm' eq_refl) as [Hin Hdue].
    destruct ((due x <=? t) && (due x <=? due tm')) eqn:Hx; intros [= <-].
    + apply andb_true_iff in Hx as [Hx _]. apply Z.leb_le in Hx.
      split; [by left | done].
    + split; [by right | done].
  - destruct (due x <=? t) eqn:Hx; [|done]. intros [= <-].
    apply Z.leb_le in Hx. split; [by left | done].
Qed.

Lemma nextDue_None t tms :
  nextDue t tms = None → ∀ tm, tm ∈ tms → t < due tm.
Proof.
  induction tms as [|x rest IH]; simpl; [intros _ tm Hin; by apply elem_of_nil in Hin|].
  destruct (nextDue t rest) as [tm'|].
  - by destruct (_ && _).
  - destruct (due x <=? t) eqn:Hx; [done|]. intros _ tm Hin.
    apply Z.leb_gt in Hx.
    apply elem_of_cons in Hin as [->|Hin]; [done | by apply IH].
Qed.

Lemma tidy_fire tm s : tidy s → tidy (fire tm s).
Proof.
  intros Htidy. apply (tidy_clearTimeout (handle tm)) in Htidy.
  unfold fire. destruct (callback tm); by tidy_same.
Qed.

Lemma tidy_runTimers fuel t s : tidy s → tidy (runTimers fuel t s).
Proof.
  revert s. induction fuel as [|fuel IH]; intros s Htidy; simpl; [done|].
  destruct (nextDue t (timers s)); [|done].
  by apply IH, tidy_fire.
Qed.

Lemma tidy_elapse ms s : tidy s → tidy (elapse ms s).
Proof.
  intros Htidy. unfold elapse.
  apply (tidy_runTimers (length (timers s)) (now s + Z.max 0 ms)) in Htidy.
  by tidy_same.
Qed.

(** *** The discipline holds in every reachable state *)

Lemma tidy_setActiveChat v s : tidy s → tidy (setActiveChat v s).
Proof. intros. by tidy_same. Qed.
Lemma tidy_setMessages f s : tidy s → tidy (setMessages f s).
Proof. intros. by tidy_same. Qed.
Lemma tidy_setInputText v s : tidy s → tidy (setInputText v s).
Proof. intros. by tidy_same. Qed.
Lemma tidy_setIsTyping v s : tidy s → tidy (setIsTyping v s).
Proof. intros. by tidy_same. Qed.
Lemma tidy_setIsLoading v s : tidy s → tidy (setIsLoading v s).
Proof. intros. by tidy_same. Qed.
Lemma tidy_emit e s : tidy s → tidy (emit e s).
Proof. intros. by tidy_same. Qed.
Lemma tidy_showToast message type s : tidy s → tidy (showToast message type s).
Proof. intros. by tidy_same. Qed.

Lemma tidy_mounted t0 : tidy (mounted t0).
Proof.
  repeat split; simpl.
  - apply NoDup_nil_2.
  - intros tm Hin. by apply elem_of_nil in Hin.
  - intros tm Hin. by apply elem_of_nil in Hin.
Qed.

Create HintDb tidy discriminated.
#[global] Hint Resolve
  tidy_setActiveChat tidy_setMessages tidy_setInputText tidy_setIsTyping
  tidy_setIsLoading tidy_emit tidy_showToast
  tidy_clearSenderTimeout tidy_clearReceiverTimeout
  tidy_rearm_receiver tidy_rearm_sender tidy_elapse tidy_mounted : tidy.

Section Guard.

Variable user : User.t.
Variable t : string → string.
Variable getTime : string → option Z.

Lemma tidy_step (s : Chat) (e : Event) : tidy s → tidy (step user t getTime s e).
Proof using Type.
  intros Htidy.
  destruct e; simpl;
    unfold handleConnect, handleReceiveMessage, handleMessageSent,
      handleMessageRecalled, handleMessageDeleted, handleRecallError,
      handleNewRequest, handleRequestAccepted, handleMessagesRead,
      handleUserTyping, handleUserStopTyping, selectChat, selectChat_settled,
      handleBackToFriends, handleInputChange, sendMessage, handleRecallMessage,
      handleDeleteMessage, handleFileUpload_settled, handleVoiceRecorded,
      handleVoiceRecorded_settled;
    repeat case_match; auto 20 with tidy.
Qed.

Lemma tidy_run (events : list Event) (s : Chat) :
  tidy s → tidy (run user t getTime s events).
Proof using Type.
  revert s. induction events as [|e events IH]; intros s Htidy; simpl; [done|].
  by apply IH, tidy_step.
Qed.

Lemma run_app (s : Chat) (events more : list Event) :
  run user t getTime (run user t getTime s events) more
  = run user t getTime s (events ++ more).
Proof using Type. unfold run. by rewrite foldl_app. Qed.

Lemma reachable_run (s : Chat) (more : list Event) :
  reachable user t getTime s → reachable user t getTime (run user t getTime s more).
Proof using Type.
  intros (t0 & events & ->). exists t0, (events ++ more). apply run_app.
Qed.

Lemma reachable_tidy (s : Chat) : reachable user t getTime s → tidy s.
Proof using Type.
  intros (t0 & events & ->). apply tidy_run, tidy_mounted.
Qed.

End Guard.

(** *** What firing timers does to the flag and to the socket *)

Lemma isTyping_runTimers_false fuel t s :
  isTyping s = false → isTyping (runTimers fuel t s) = false.
Proof.
  revert s. induction fuel as [|fuel IH]; intros s Hs; simpl; [done|].
  destruct (nextDue t (timers s)) as [tm|]; [|done].
  apply IH. unfold fire. by destruct (callback tm).
Qed.

(** No [clearIsTyping] is due by [t]: the flag stays as it is. *)
Lemma isTyping_runTimers_early fuel t s :
  (∀ tm, tm ∈ timers s → callback tm = clearIsTyping → t < due tm) →
  isTyping (runTimers fuel t s) = isTyping s.
Proof.
  revert s. induction fuel as [|fuel IH]; intros s Hlate; simpl; [done|].
  destruct (nextDue t (timers s)) as [tm|] eqn:Hnext; [|done].
  apply nextDue_Some in Hnext as [Hin Hdue].
  rewrite IH.
  - unfold fire. destruct (callback tm) eqn:Hcb; [done|].
    specialize (Hlate tm Hin Hcb). lia.
  - intros tm' Hin' Hcb'. apply (Hlate tm'); [|done].
    unfold fire in Hin'.
    destruct (callback tm); simpl in Hin';
      by apply (elem_of_timers_clearTimeout tm' (handle tm) s) in Hin' as [_ ?].
Qed.

(** A [clearIsTyping] is due by [t]: the flag is down once the timers ran. *)
Lemma isTyping_runTimers_due fuel t s tm :
  NoDup (handle <$> timers s) →
  (length (timers s) ≤ fuel)%nat →
  tm ∈ timers s → callback tm = clearIsTyping → due tm <= t →
  isTyping (runTimers fuel t s) = false.
Proof.
  revert s. induction fuel as [|fuel IH]; intros s Hnodup Hfuel Hin Hcb Hdue.
  - destruct (timers s); [by apply elem_of_nil in Hin | simpl in Hfuel; lia].
  - simpl. destruct (nextDue t (timers s)) as [tm'|] eqn:Hnext.
    + apply nextDue_Some in Hnext as [Hin' Hdue'].
      destruct (callback tm') as [from to|] eqn:Hcb'.
      * assert (handle tm ≠ handle tm') as Hne.
        { intros Heq. assert (tm = tm') as ->; [|congruence].
          apply list_elem_of_lookup in Hin as [i Hi].
          apply list_elem_of_lookup in Hin' as [j Hj].
          assert (i = j) as ->; [|congruence].
          eapply NoDup_lookup; [exact Hnodup | |];
            rewrite list_lookup_fmap; [rewrite Hi | rewrite Hj]; simpl;
            [reflexivity | by rewrite Heq]. }
        assert (fire tm' s = emit (Emit.stopTyping from to) (clearTimeout (handle tm') s))
          as -> by (unfold fire; by rewrite Hcb').
        apply IH; simpl.
        -- by apply NoDup_handles_filter.
        -- pose proof (length_filter_lt (λ x, handle x ≠ handle tm') (timers s) tm' Hin')
             as Hlt.
           assert (¬ handle tm' ≠ handle tm') as Hnn by (intros H; by apply H).
           specialize (Hlt Hnn). lia.
        -- by apply (list_elem_of_filter (λ x, handle x ≠ handle tm') (timers s) tm).
        -- done.
        -- done.
      * apply isTyping_runTimers_false. unfold fire. by rewrite Hcb'.
    + pose proof (nextDue_None _ _ Hnext tm Hin). lia.
Qed.

(** With no timer pending, time passing emits nothing. *)
Lemma emitted_elapse_idle ms s : timers s = [] → emitted (elapse ms s) = emitted s.
Proof. intros H. unfold elapse. rewrite H. reflexivity. Qed.

Lemma activeChat_runTimers fuel t s : activeChat (runTimers fuel t s) = activeChat s.
Proof.
  revert s. induction fuel as [|fuel IH]; intros s; simpl; [done|].
  destruct (nextDue t (timers s)) as [tm|]; [|done].
  rewrite IH. unfold fire. by destruct (callback tm).
Qed.

Lemma activeIs_elapse x ms s : activeIs x (elapse ms s) = activeIs x s.
Proof. unfold activeIs, elapse. simpl. by rewrite activeChat_runTimers. Qed.

Lemma elem_of_timers_clearReceiverTimeout tm s :
  tm ∈ timers (clearReceiverTimeout s) → tm ∈ timers s.
Proof.
  unfold clearReceiverTimeout. destruct (receiverTypingTimeoutRef s); [|done].
  by intros [_ ?]%elem_of_timers_clearTimeout.
Qed.

Lemma isTyping_elapse ms s :
  isTyping (elapse ms s) = isTyping (runTimers (length (timers s)) (now s + Z.max 0 ms) s).
Proof. reflexivity. Qed.

(** The receiver's side of the guard, from any state that keeps the timer
    discipline. *)
Lemma handleUserTyping_guard (s : Chat) (fromUserId : string) :
  tidy s →
  activeIs fromUserId s = true →
  let s1 := handleUserTyping fromUserId s in
  isTyping s1 = true ∧
  (∀ ms, ms < 5000 → isTyping (elapse ms s1) = true) ∧
  (∀ ms, 5000 <= ms → isTyping (elapse ms s1) = false).
Proof.
  intros Htidy Hactive s1.
  assert (tidy s1) as Htidy1.
  { subst s1. unfold handleUserTyping. rewrite Hactive. auto with tidy. }
  assert (s1 = armReceiverTimeout clearIsTyping 5000
                 (clearReceiverTimeout (setIsTyping true s))) as Hs1.
  { subst s1. unfold handleUserTyping. by rewrite Hactive. }
  clearbody s1. subst s1.
  set (s0 := clearReceiverTimeout (setIsTyping true s)) in *.
  set (new := {| handle := nextHandle s0; due := now s0 + 5000; callback := clearIsTyping |}).
  assert (timers (armReceiverTimeout clearIsTyping 5000 s0) = timers s0 ++ [new]) as Htimers
    by reflexivity.
  assert (now (armReceiverTimeout clearIsTyping 5000 s0) = now s0) as Hnow by reflexivity.
  assert (isTyping (armReceiverTimeout clearIsTyping 5000 s0) = true) as Hflag.
  { simpl. subst s0. by rewrite isTyping_clearReceiverTimeout. }
  split; [exact Hflag|]. split.
  - intros ms Hms. rewrite isTyping_elapse.
    rewrite isTyping_runTimers_early; [exact Hflag|].
    intros tm Hin Hcb. rewrite Htimers in Hin. rewrite Hnow.
    apply elem_of_app in Hin as [Hin|Hin].
    + subst s0. by destruct (clearReceiverTimeout_no_clearIsTyping
                               (setIsTyping true s) tm (tidy_setIsTyping true s Htidy) Hin).
    + apply list_elem_of_singleton in Hin as ->. simpl. lia.
  - intros ms Hms. rewrite isTyping_elapse.
    apply (isTyping_runTimers_due _ _ _ new).
    + apply Htidy1.
    + done.
    + rewrite Htimers. apply elem_of_snoc.
    + done.
    + rewrite Hnow. simpl. lia.
Qed.

Section GuardClaims.

Variable user : User.t.
Variable t : string → string.
Variable getTime : string → option Z.

(** C9. In a reachable state where [A] is the active conversation,
    switching to [B] emits one event, a [stopTyping] addressed to [A]; it
    lowers the typing flag and leaves no timer pending, neither the sender's
    nor the receiver's, so that nothing is emitted later on behalf of the
    conversation with [A]; and when the history of [B] settles, the only
    event emitted is the read receipt for [B]. *)
Theorem selectChat_stops_typing_once (s : Chat) (A B : Friend.t) :
  reachable user t getTime s →
  activeChat s = Some A →
  let s' := selectChat user B s in
  emitted s' = emitted s ++ [Emit.stopTyping (User.userId user) (Friend.userId A)] ∧
  isTyping s' = false ∧
  timers s' = [] ∧
  activeChat s' = Some B ∧
  (∀ ms, emitted (elapse ms s') = emitted s') ∧
  (∀ history,
     emitted (selectChat_settled user B history s') =
     emitted s' ++
       (if history is Some _
        then [Emit.markAsRead (User.userId user) (Friend.userId B)] else [])).
Proof using Type.
  intros Hreach Hactive s'.
  apply reachable_tidy in Hreach as Htidy.
  assert (socket s = true) as Hsock by apply Htidy.
  assert (timers s' = []) as Htimers.
  { subst s'. unfold selectChat. rewrite Hactive, Hsock. simpl.
    apply elem_of_nil_inv. intros tm Hin.
    pose proof (clearReceiverTimeout_no_clearIsTyping _ tm
                  (tidy_clearSenderTimeout s Htidy) Hin) as Hrecv.
    apply elem_of_timers_clearReceiverTimeout in Hin.
    destruct (callback tm) as [from to|] eqn:Hcb; [|done].
    by destruct (clearSenderTimeout_no_emitStopTyping s tm from to Htidy Hin). }
  assert (socket s' = true) as Hsock'.
  { subst s'. unfold selectChat. rewrite Hactive, Hsock. simpl.
    by rewrite socket_clearReceiverTimeout, socket_clearSenderTimeout. }
  split; [|split; [|split; [|split; [|split]]]].
  - subst s'. unfold selectChat. rewrite Hactive, Hsock. simpl.
    by rewrite emitted_clearReceiverTimeout, emitted_clearSenderTimeout.
  - subst s'. unfold selectChat. by rewrite Hactive, Hsock.
  - exact Htimers.
  - subst s'. unfold selectChat. by rewrite Hactive, Hsock.
  - intros ms. by apply emitted_elapse_idle.
  - intros [h|]; unfold selectChat_settled; [rewrite Hsock'|]; simpl.
    + done.
    + by rewrite app_nil_r.
Qed.

End GuardClaims.

(** C9, run: Alice switches from Bob to Carol while both timers are armed. *)
Lemma selectChat_stops_typing_once_run :
  let s' := selectChat alice carol bothTyping in
  emitted s' = emitted bothTyping ++ [Emit.stopTyping "alice" "bob"] ∧
  isTyping s' = false ∧
  timers s' = [] ∧
  length (timers bothTyping) = 2%nat.
Proof.
  destruct (selectChat_stops_typing_once alice keys JS.isoTime bothTyping bob carol)
    as (H1 & H2 & H3 & _).
  - apply reachable_run. exists 0, [chatSelected bob; historySettled bob (Some [fromBob])].
    reflexivity.
  - vm_compute. reflexivity.
  - split; [exact H1|]. split; [exact H2|]. split; [exact H3|].
    vm_compute. reflexivity.
Defined.

(** X22, run: Bob's recalled message stays recalled through an echo, a read
    receipt and the passing of time. *)
Lemma recall_is_terminal_run :
  ∃ m', messages (run alice keys JS.isoTime bobRecalled
                    [receiveMessage_ echo1; messagesRead_ "bob"; elapsed 1000]) !! 0%nat
          = Some m' ∧
        isRecalled m' = Some true ∧
        ∀ isMe, ∃ label, MessageBubble keys m' isMe = notice label.
Proof.
  apply (recall_is_terminal alice keys JS.isoTime _ bobRecalled 0 (recalled fromBob)).
  - repeat constructor.
  - reflexivity.
  - reflexivity.
  - left. vm_compute. lia.
Defined.


(** ** More on the matcher and on the receive path *)

Section Receive.

Variable user : User.t.
Variable getTime : string → option Z.

(** X1. A received message whose identity the log does not know is appended
    as a new last entry when it does not come from the local user, or when
    no entry is a placeholder with its content and type, or when the earliest
    such placeholder lies 5000 ms or more from it (or one of the two
    timestamps does not parse) — in that last case whatever later
    placeholders there are. *)
Theorem receiveMessage_appends (prev : list Message) (msg : Message) :
  ¬ known msg prev →
  fromUserId msg ≠ User.userId user ∨
  (∀ m, m ∈ prev → ¬ candidate msg m) ∨
  (∃ i P, prev !! i = Some P ∧ candidate msg P ∧
          (∀ j m, (j < i)%nat → prev !! j = Some m → ¬ candidate msg m) ∧
          ¬ closeInTime getTime (timestamp P) (timestamp msg)) →
  receiveMessage (User.userId user) getTime msg prev = prev ++ [msg].
Proof using Type.
  intros Hnew Hcase. unfold receiveMessage.
  destruct (JS.some _ prev) eqn:Hsome; [by apply known_some in Hsome|].
  unfold mergeOptimistic.
  destruct (bool_decide_reflect (fromUserId msg = User.userId user)) as [Hme|Hme];
    [|done].
  destruct Hcase as [Hother|[Hnone|(i & P & Hi & Hcand & Hfirst & Hfar)]]; [done| |].
  - destruct (JS.findIndex (optimisticFor msg) prev) as [k|] eqn:Hk; [|done].
    apply findIndex_Some in Hk as [(x & Hx & Hopt) _].
    apply optimisticFor_candidate in Hopt.
    destruct (Hnone x); [|done]. apply list_elem_of_lookup. eauto.
  - assert (JS.findIndex (optimisticFor msg) prev = Some i) as ->.
    { apply findIndex_Some. split.
      - exists P. split; [done | by apply optimisticFor_candidate].
      - intros j m Hj Hm. destruct (optimisticFor msg m) eqn:Hopt; [|done].
        apply optimisticFor_candidate in Hopt. by destruct (Hfirst j m Hj Hm). }
    simpl. rewrite Hi. simpl.
    destruct (within5000 getTime (timestamp P) (timestamp msg)) eqn:Hclose; [|done].
    by apply within5000_closeInTime in Hclose.
Qed.

(** X2. With no conversation open, or for a message that is neither from nor
    to the peer of the open conversation, [handleReceiveMessage] leaves the
    whole state as it is: log, typing flag, timers and socket. *)
Theorem handleReceiveMessage_other_conversation (msg : Message) (s : Chat) :
  (∀ chat, activeChat s = Some chat →
           fromUserId msg ≠ Friend.userId chat ∧ toUserId msg ≠ Friend.userId chat) →
  handleReceiveMessage user getTime msg s = s.
Proof using Type.
  intros Hother. unfold handleReceiveMessage.
  destruct (activeChat s) as [chat|]; [|done].
  destruct (Hother chat eq_refl) as [Hfrom Hto].
  by rewrite !bool_decide_eq_false_2.
Qed.

(** X3. A message of the open conversation lowers the typing flag for good
    (no pending timer raises or needs to lower it again), hands the message
    to the matcher, and emits one read receipt when it comes from the peer,
    nothing when it is the echo of a message of the local user. *)
Theorem handleReceiveMessage_active_conversation (msg : Message) (s : Chat)
    (chat : Friend.t) :
  activeChat s = Some chat →
  fromUserId msg = Friend.userId chat ∨ toUserId msg = Friend.userId chat →
  let s' := handleReceiveMessage user getTime msg s in
  messages s' = receiveMessage (User.userId user) getTime msg (messages s) ∧
  isTyping s' = false ∧
  (∀ ms, isTyping (elapse ms s') = false) ∧
  emitted s' =
    emitted s ++
      (if bool_decide (fromUserId msg = Friend.userId chat)
       then [Emit.markAsRead (User.userId user) (Friend.userId chat)] else []).
Proof using Type.
  intros Hchat Hmine s'. subst s'. unfold handleReceiveMessage. rewrite Hchat.
  assert (bool_decide (fromUserId msg = Friend.userId chat)
          || bool_decide (toUserId msg = Friend.userId chat) = true) as ->.
  { apply orb_true_iff. destruct Hmine; [left | right]; by apply bool_decide_eq_true. }
  assert (∀ x, isTyping x = false → ∀ ms, isTyping (elapse ms x) = false) as Hstay.
  { intros x Hx ms. rewrite isTyping_elapse. by apply isTyping_runTimers_false. }
  destruct (bool_decide (fromUserId msg = Friend.userId chat));
    (split; [simpl; by autorewrite with frame|]);
    (split; [simpl; by autorewrite with frame|]);
    (split; [apply Hstay; simpl; by autorewrite with frame|]);
    simpl; autorewrite with frame; simpl; [done | by rewrite app_nil_r].
Qed.

(** X5. A messages-read event of the peer of the open conversation marks
    every entry sent by the local user as read and leaves every other entry,
    and the length of the log, as they were; from anyone else it changes
    nothing at all. *)
Theorem handleMessagesRead_marks_own (byUserId : string) (s : Chat) :
  let s' := handleMessagesRead user byUserId s in
  (activeIs byUserId s = false → s' = s) ∧
  (activeIs byUserId s = true →
     length (messages s') = length (messages s) ∧
     ∀ i m, messages s !! i = Some m →
       ∃ m', messages s' !! i = Some m' ∧
             if bool_decide (fromUserId m = User.userId user)
             then isRead m' = Some true ∧ read m' = read m
             else m' = m).
Proof using Type.
  intros s'. subst s'. unfold handleMessagesRead. split; intros ->; [done|].
  simpl. unfold messagesRead. split; [apply length_fmap|].
  intros i m Hi. rewrite list_lookup_fmap, Hi. simpl.
  eexists. split; [reflexivity|].
  by destruct (bool_decide (fromUserId m = User.userId user)).
Qed.

End Receive.

(** X1, run: the echo of a fresh "hi" finds an older placeholder "hi" first,
    an hour away, and is appended although the fresh one is 200 ms away. *)
Lemma receiveMessage_appends_run :
  receiveMessage "alice" JS.isoTime echo1 [hi0; hi1] = [hi0; hi1; echo1].
Proof.
  apply (receiveMessage_appends alice JS.isoTime [hi0; hi1] echo1).
  - intros H. apply known_some in H. vm_compute in H. discriminate.
  - right. right. exists 0%nat, hi0. split; [reflexivity|]. split.
    + apply (proj1 (optimisticFor_candidate echo1 hi0)). reflexivity.
    + split; [intros j m Hj; lia|].
      intros H. apply (proj2 (within5000_closeInTime JS.isoTime _ _)) in H.
      vm_compute in H. discriminate.
Defined.

(** X2, run: a message from Carol while the conversation with Bob is open. *)
Lemma handleReceiveMessage_other_conversation_run :
  let msg := fromServer "65e1c0a4f1d2b3a4c5d6e7fa" "carol" "alice" "hey"
               "2024-03-01T12:00:00.000Z" in
  handleReceiveMessage alice JS.isoTime msg bobWrote = bobWrote.
Proof.
  intros msg. apply (handleReceiveMessage_other_conversation alice JS.isoTime msg bobWrote).
  intros chat Hchat. vm_compute in Hchat. injection Hchat as <-.
  split; discriminate.
Defined.

(** X3, run: Bob's next message arrives while he is shown as typing. *)
Lemma handleReceiveMessage_active_conversation_run :
  let msg := fromServer "65e1c0a4f1d2b3a4c5d6e7fa" "bob" "alice" "hey"
               "2024-03-01T12:00:00.000Z" in
  let s' := handleReceiveMessage alice JS.isoTime msg bothTyping in
  isTyping bothTyping = true ∧ isTyping s' = false ∧
  emitted s' = emitted bothTyping ++ [Emit.markAsRead "alice" "bob"].
Proof.
  intros msg.
  destruct (handleReceiveMessage_active_conversation alice JS.isoTime msg bothTyping bob)
    as (_ & H2 & _ & H4).
  - vm_compute. reflexivity.
  - left. reflexivity.
  - split; [vm_compute; reflexivity|]. split; [exact H2 | exact H4].
Defined.

(** X5, run: Bob has read the conversation; Alice's two "hi" are marked. *)
Lemma handleMessagesRead_marks_own_run :
  isRead <$> messages (handleMessagesRead alice "bob" afterTwoSends)
    = [Some true; Some true].
Proof.
  destruct (handleMessagesRead_marks_own alice "bob" afterTwoSends) as [_ H].
  destruct (H ltac:(vm_compute; reflexivity)) as [_ Hall].
  destruct (Hall 0%nat hi1 ltac:(vm_compute; reflexivity)) as (m0 & H0 & _).
  vm_compute. reflexivity.
Defined.

(** ** More on the log mutators and on what is rendered *)

Lemma hiddenFromMe_withDeletion (user : User.t) (m : Message) (d : Deletion) :
  hiddenFromMe user (withDeletion m d)
  = hiddenFromMe user m || bool_decide (by_userId d = User.userId user).
Proof.
  unfold hiddenFromMe, JS.some. simpl. rewrite existsb_app. simpl.
  rewrite orb_false_r. by destruct (deletedBy m).
Qed.

Lemma length_filter_fmap {A} (P : A → Prop) `{∀ x, Decision (P x)} (f : A → A)
    (l : list A) :
  (∀ x, P (f x) ↔ P x) → length (filter P (f <$> l)) = length (filter P l).
Proof.
  intros Hf. induction l as [|x l IH]; [done|].
  rewrite fmap_cons, !filter_cons.
  destruct (decide (P (f x))) as [Hy|Hn], (decide (P x)) as [Hy'|Hn']; simpl;
    try (by rewrite IH); exfalso; by (apply Hn, Hf || apply Hn', Hf).
Qed.

Lemma receiveMessage_length me getTime (msg : Message) (prev : list Message) :
  (length prev ≤ length (receiveMessage me getTime msg prev) ≤ S (length prev))%nat.
Proof.
  unfold receiveMessage. destruct (JS.some _ prev); [lia|].
  unfold mergeOptimistic.
  assert (length (prev ++ [msg]) = S (length prev)) as Happ
    by (rewrite length_app; simpl; lia).
  destruct (bool_decide _); simpl; [|lia].
  destruct (JS.findIndex _ prev) as [i|]; simpl; [|lia].
  destruct (prev !! i) as [P|]; simpl; [|lia].
  destruct (within5000 _ _ _); simpl; [|lia].
  rewrite length_insert. lia.
Qed.

Section Mutators.

Variable user : User.t.
Variable t : string → string.
Variable getTime : string → option Z.

(** X6. Deletion hides per viewer. A message-deleted event whose actor is
    not the local user leaves the number of rendered entries as it was.
    After a local delete of a durable identity no rendered bubble shows an
    entry with that identity, while every entry is still in the log. *)
Theorem delete_hides_for_its_actor_only (messageId deletedBy deletedAt : string)
    (s : Chat) :
  socket s = true →
  (20 ≤ String.length messageId)%nat →
  let remote := handleMessageDeleted messageId deletedBy deletedAt s in
  let local := handleDeleteMessage user t (Some messageId) deletedAt s in
  (deletedBy ≠ User.userId user →
     length (renderLog user t remote) = length (renderLog user t s)) ∧
  (∀ m', bubble m' ∈ renderLog user t local → _id m' ≠ Some messageId) ∧
  length (messages local) = length (messages s).
Proof using Type.
  intros Hsock Hlen remote local.
  assert (JS.truthy messageId = true) as Htruthy.
  { destruct messageId; [simpl in Hlen; lia | done]. }
  assert (messages local
          = messageDeleted messageId
              {| by_userId := User.userId user; deletedAt := deletedAt |} (messages s))
    as Hlocal.
  { subst local. unfold handleDeleteMessage. rewrite Hsock, Htruthy.
    by rewrite (bool_decide_eq_false_2 (String.length messageId < 20)%nat) by lia. }
  split; [|split].
  - intros Hactor. subst remote. unfold renderLog, handleMessageDeleted, messageDeleted.
    rewrite !length_fmap. simpl.
    apply (length_filter_fmap (λ msg, hiddenFromMe user msg = false)).
    intros x. destruct (bool_decide (_id x = Some messageId)); [|done].
    rewrite hiddenFromMe_withDeletion. simpl.
    rewrite (bool_decide_eq_false_2 (deletedBy = User.userId user)) by done.
    by rewrite orb_false_r.
  - intros m' Hin Hid. unfold renderLog in Hin. rewrite Hlocal in Hin.
    apply list_elem_of_fmap in Hin as (x & Hx & Hin).
    apply list_elem_of_filter in Hin as [Hvis Hin].
    unfold MessageBubble in Hx.
    destruct (default false (isRecalled x)); [discriminate|].
    injection Hx as <-.
    unfold messageDeleted in Hin.
    apply list_elem_of_fmap in Hin as (y & Hy & _).
    destruct (bool_decide_reflect (_id y = Some messageId)) as [Hyes|Hno].
    + subst m'. rewrite hiddenFromMe_withDeletion in Hvis. simpl in Hvis.
      rewrite bool_decide_eq_true_2 in Hvis by done.
      by rewrite orb_true_r in Hvis.
    + by subst m'.
  - rewrite Hlocal. unfold messageDeleted. apply length_fmap.
Qed.

(** X11. No event removes an entry, bar a conversation switch and the
    arrival of a history: after any other event the log has the length it had
    or one more, and after any sequence of such events it is at least as long
    as before. *)
Theorem log_only_grows (events : list Event) (s : Chat) :
  Forall (λ e, replacesLog e = false) events →
  (length (messages s) ≤ length (messages (run user t getTime s events))
   ≤ length (messages s) + length events)%nat.
Proof using Type.
  revert s. induction events as [|e events IH]; intros s Hkeep; simpl; [lia|].
  apply Forall_cons in Hkeep as [He Hkeep].
  specialize (IH (step user t getTime s e) Hkeep).
  enough (length (messages s) ≤ length (messages (step user t getTime s e))
          ≤ S (length (messages s)))%nat by lia.
  clear IH Hkeep.
  pose proof (receiveMessage_length (User.userId user) getTime) as Hrecv.
  assert (∀ x : Message, length (messages s ++ [x]) = S (length (messages s))) as Happ
    by (intros x; rewrite length_app; simpl; lia).
  destruct e; simpl in *; try discriminate;
    unfold handleReceiveMessage, handleMessageSent, handleMessageRecalled,
      handleMessageDeleted, handleMessagesRead, handleUserTyping,
      handleUserStopTyping, handleInputChange, sendMessage, handleRecallMessage,
      handleDeleteMessage, handleFileUpload_settled, handleVoiceRecorded,
      handleVoiceRecorded_settled, armReceiverTimeout, armSenderTimeout, setTimeout,
      messageSent, messageRecalled, messageDeleted, messagesRead;
    cbn beta iota; repeat case_match; simpl;
    autorewrite with frame; simpl;
    rewrite ?messages_runTimers, ?length_fmap, ?Happ;
    try lia; apply Hrecv.
Qed.

(** X12. A local recall of a durable identity, with the socket there, emits
    one [recallMessage] naming the identity, the local user and the peer of
    the open conversation, and marks the entries with that identity, and no
    other, as recalled: they are rendered as the notice from then on. The
    message-recalled event that reports the recall then changes nothing. *)
Theorem handleRecallMessage_durable (messageId : string) (s : Chat) :
  socket s = true →
  (20 ≤ String.length messageId)%nat →
  let s' := handleRecallMessage user t (Some messageId) s in
  emitted s' =
    emitted s ++
      [Emit.recallMessage messageId (User.userId user) (Friend.userId <$> activeChat s)] ∧
  (∀ i m, messages s !! i = Some m →
     ∃ m', messages s' !! i = Some m' ∧
           if bool_decide (_id m = Some messageId)
           then isRecalled m' = Some true ∧
                ∀ isMe, ∃ label, MessageBubble t m' isMe = notice label
           else m' = m) ∧
  messages (handleMessageRecalled messageId s') = messages s'.
Proof using Type.
  intros Hsock Hlen s'.
  assert (JS.truthy messageId = true) as Htruthy.
  { destruct messageId; [simpl in Hlen; lia | done]. }
  assert (s' = s ▹ emit (Emit.recallMessage messageId (User.userId user)
                           (Friend.userId <$> activeChat s))
                 ▹ setMessages (messageRecalled messageId)
                 ▹ showToast (t "chat.youRecalled") Toast.success) as ->.
  { subst s'. unfold handleRecallMessage. rewrite Hsock, Htruthy.
    by rewrite (bool_decide_eq_false_2 (String.length messageId < 20)%nat) by lia. }
  split; [done|]. split.
  - intros i m Hi. simpl. unfold messageRecalled. rewrite list_lookup_fmap, Hi. simpl.
    eexists. split; [reflexivity|].
    destruct (bool_decide (_id m = Some messageId)); [|done].
    split; [done|]. intros isMe. unfold MessageBubble. simpl. eauto.
  - simpl. unfold messageRecalled. rewrite <- list_fmap_compose.
    apply list_fmap_ext. intros i m _. simpl.
    destruct (bool_decide_reflect (_id m = Some messageId)) as [Hyes|Hno]; simpl.
    + by rewrite bool_decide_eq_true_2.
    + by rewrite bool_decide_eq_false_2.
Qed.

End Mutators.

(** X6, run: Bob deletes his message for himself, Alice still sees it; Alice
    deletes it for herself, and her view is empty while the log keeps it. *)
Lemma delete_hides_for_its_actor_only_run :
  let id := "65e1c0a4f1d2b3a4c5d6e7f9" in
  let at_ := "2024-03-01T12:01:00.000Z" in
  length (renderLog alice keys (handleMessageDeleted id "bob" at_ bobWrote)) = 1%nat ∧
  renderLog alice keys (handleDeleteMessage alice keys (Some id) at_ bobWrote) = [] ∧
  length (messages (handleDeleteMessage alice keys (Some id) at_ bobWrote)) = 1%nat.
Proof.
  intros id at_.
  destruct (delete_hides_for_its_actor_only alice keys id "bob" at_ bobWrote)
    as (H1 & _ & H3).
  - reflexivity.
  - vm_compute. lia.
  - split; [rewrite H1; [reflexivity | discriminate]|].
    split; [vm_compute; reflexivity | exact H3].
Defined.

(** X11, run: an echo, a confirmation, a recall and a delete on the log of
    two placeholders. *)
Lemma log_only_grows_run :
  (2 ≤ length (messages (run alice keys JS.isoTime afterTwoSends
                           [ receiveMessage_ echo1; messageSent_ echo1;
                             messageRecalled_ "65e1c0a4f1d2b3a4c5d6e7f8";
                             deleteClicked (Some "65e1c0a4f1d2b3a4c5d6e7f8")
                               "2024-03-01T12:01:00.000Z" ])))%nat.
Proof.
  pose proof (log_only_grows alice keys JS.isoTime
                [ receiveMessage_ echo1; messageSent_ echo1;
                  messageRecalled_ "65e1c0a4f1d2b3a4c5d6e7f8";
                  deleteClicked (Some "65e1c0a4f1d2b3a4c5d6e7f8")
                    "2024-03-01T12:01:00.000Z" ]
                afterTwoSends) as H.
  assert (length (messages afterTwoSends) = 2%nat) as Hlen by (vm_compute; reflexivity).
  rewrite Hlen in H. apply H. repeat constructor.
Defined.

(** X12, run: the handler called with the identity of the one entry of the
    log. *)
Lemma handleRecallMessage_durable_run :
  let s' := handleRecallMessage alice keys (Some "65e1c0a4f1d2b3a4c5d6e7f9") bobWrote in
  emitted s' = emitted bobWrote
               ++ [Emit.recallMessage "65e1c0a4f1d2b3a4c5d6e7f9" "alice" (Some "bob")] ∧
  messages (handleMessageRecalled "65e1c0a4f1d2b3a4c5d6e7f9" s') = messages s'.
Proof.
  destruct (handleRecallMessage_durable alice keys "65e1c0a4f1d2b3a4c5d6e7f9" bobWrote)
    as (H1 & _ & H3).
  - reflexivity.
  - vm_compute. lia.
  - split; [exact H1 | exact H3].
Defined.

(** ** More on the typing guard: the sender's side *)

Lemma NoDup_handles_inj (tms : list Timer) (x y : Timer) :
  NoDup (handle <$> tms) → x ∈ tms → y ∈ tms → handle x = handle y → x = y.
Proof.
  intros Hnodup Hx Hy Heq.
  apply list_elem_of_lookup in Hx as [i Hi].
  apply list_elem_of_lookup in Hy as [j Hj].
  assert (i = j) as ->; [|congruence].
  eapply NoDup_lookup; [exact Hnodup | |];
    rewrite list_lookup_fmap; [rewrite Hi | rewrite Hj]; simpl;
    [reflexivity | by rewrite Heq].
Qed.

(** In a tidy state two pending timers of one kind are one timer. *)
Lemma tidy_one_per_kind (s : Chat) (x y : Timer) :
  tidy s → x ∈ timers s → y ∈ timers s →
  (callback x = clearIsTyping ↔ callback y = clearIsTyping) →
  x = y.
Proof.
  intros (_ & Hnodup & _ & Htr) Hx Hy Hkind.
  apply (NoDup_handles_inj (timers s)); [done..|].
  pose proof (Htr x Hx) as Tx. pose proof (Htr y Hy) as Ty. unfold tracked in *.
  destruct (callback x) as [fx tx|], (callback y) as [fy ty|];
    try congruence; exfalso;
    [ assert (emitStopTyping fx tx = clearIsTyping) by (by apply Hkind)
    | assert (emitStopTyping fy ty = clearIsTyping) by (by apply Hkind) ];
    discriminate.
Qed.

Lemma emitted_elapse ms s :
  emitted (elapse ms s) = emitted (runTimers (length (timers s)) (now s + Z.max 0 ms) s).
Proof. reflexivity. Qed.

(** No [emitStopTyping] is due by [t]: nothing is emitted. *)
Lemma emitted_runTimers_early fuel t s :
  (∀ tm, tm ∈ timers s → callback tm ≠ clearIsTyping → t < due tm) →
  emitted (runTimers fuel t s) = emitted s.
Proof.
  revert s. induction fuel as [|fuel IH]; intros s Hlate; simpl; [done|].
  destruct (nextDue t (timers s)) as [tm|] eqn:Hnext; [|done].
  apply nextDue_Some in Hnext as [Hin Hdue].
  rewrite IH.
  - unfold fire. destruct (callback tm) eqn:Hcb; [|done].
    assert (t < due tm); [|lia]. apply Hlate; [done|]. by rewrite Hcb.
  - intros tm' Hin' Hcb'. apply (Hlate tm'); [|done].
    unfold fire in Hin'.
    destruct (callback tm); simpl in Hin';
      by apply (elem_of_timers_clearTimeout tm' (handle tm) s) in Hin' as [_ ?].
Qed.

(** The one [emitStopTyping] pending is due by [t]: it is emitted, once. *)
Lemma emitted_runTimers_due fuel t s tm from to :
  NoDup (handle <$> timers s) →
  (length (timers s) ≤ fuel)%nat →
  tm ∈ timers s → callback tm = emitStopTyping from to → due tm <= t →
  (∀ tm', tm' ∈ timers s → callback tm' ≠ clearIsTyping → tm' = tm) →
  emitted (runTimers fuel t s) = emitted s ++ [Emit.stopTyping from to].
Proof.
  revert s. induction fuel as [|fuel IH]; intros s Hnodup Hfuel Hin Hcb Hdue Honly.
  - destruct (timers s); [by apply elem_of_nil in Hin | simpl in Hfuel; lia].
  - simpl. destruct (nextDue t (timers s)) as [tm1|] eqn:Hnext.
    + apply nextDue_Some in Hnext as [Hin1 Hdue1].
      destruct (callback tm1) as [f1 t1|] eqn:Hcb1.
      * assert (tm1 = tm) as -> by (apply Honly; [done | by rewrite Hcb1]).
        assert (f1 = from ∧ t1 = to) as [-> ->] by (split; congruence).
        assert (fire tm s = emit (Emit.stopTyping from to) (clearTimeout (handle tm) s))
          as -> by (unfold fire; by rewrite Hcb).
        rewrite emitted_runTimers_early; [done|].
        intros tm' Hin' Hcb'. simpl in Hin'.
        apply (list_elem_of_filter (λ x, handle x ≠ handle tm) (timers s) tm') in Hin'
          as [Hne Hin'].
        destruct Hne. f_equal. by apply Honly.
      * assert (fire tm1 s = setIsTyping false (clearTimeout (handle tm1) s))
          as -> by (unfold fire; by rewrite Hcb1).
        assert (handle tm ≠ handle tm1) as Hne.
        { intros Heq.
          assert (tm = tm1) as -> by (by apply (NoDup_handles_inj (timers s))).
          congruence. }
        rewrite (IH _); simpl.
        -- done.
        -- by apply NoDup_handles_filter.
        -- pose proof (length_filter_lt (λ x, handle x ≠ handle tm1) (timers s) tm1 Hin1)
             as Hlt.
           assert (¬ handle tm1 ≠ handle tm1) as Hnn by (intros H; by apply H).
           specialize (Hlt Hnn). lia.
        -- by apply (list_elem_of_filter (λ x, handle x ≠ handle tm1) (timers s) tm).
        -- done.
        -- done.
        -- intros tm' Hin' Hcb'. apply Honly; [|done].
           by apply (list_elem_of_filter (λ x, handle x ≠ handle tm1) (timers s) tm')
             in Hin' as [_ ?].
    + pose proof (nextDue_None _ _ Hnext tm Hin). lia.
Qed.

(** With the sender's timer cancelled, time passing emits nothing. *)
Lemma emitted_elapse_after_clearSender (s s' : Chat) ms :
  tidy s →
  timers s' = timers (clearSenderTimeout s) →
  emitted (elapse ms s') = emitted s'.
Proof.
  intros Htidy Htimers. rewrite emitted_elapse. apply emitted_runTimers_early.
  intros tm Hin Hcb. rewrite Htimers in Hin.
  destruct (callback tm) as [from to|] eqn:Hcb'; [|done].
  by destruct (clearSenderTimeout_no_emitStopTyping s tm from to Htidy Hin).
Qed.

Section Sender.

Variable user : User.t.

(** A keystroke that leaves the input non-empty, from any state that keeps
    the timer discipline. *)
Lemma handleInputChange_guard (s : Chat) (chat : Friend.t) (text : string) :
  tidy s →
  activeChat s = Some chat →
  text ≠ "" →
  let s1 := handleInputChange user text s in
  emitted s1 = emitted s ++ [Emit.typing (User.userId user) (Friend.userId chat)] ∧
  (∀ ms, ms < 2000 → emitted (elapse ms s1) = emitted s1) ∧
  (∀ ms, 2000 <= ms →
     emitted (elapse ms s1)
     = emitted s1 ++ [Emit.stopTyping (User.userId user) (Friend.userId chat)]).
Proof using Type.
  intros Htidy Hchat Htext s1.
  assert (socket s = true) as Hsock by apply Htidy.
  assert (bool_decide (0 < String.length text)%nat = true) as Hlen.
  { apply bool_decide_eq_true. destruct text; [done | simpl; lia]. }
  set (s0 := emit (Emit.typing (User.userId user) (Friend.userId chat))
               (setInputText text s)).
  assert (tidy s0) as Htidy0 by (subst s0; auto with tidy).
  set (cb := emitStopTyping (User.userId user) (Friend.userId chat)).
  assert (s1 = armSenderTimeout cb 2000 (clearSenderTimeout s0)) as Hs1.
  { subst s1. unfold handleInputChange. by rewrite Hchat, Hsock, Hlen. }
  assert (tidy s1) as Htidy1 by (rewrite Hs1; by apply tidy_rearm_sender).
  set (c0 := clearSenderTimeout s0) in *.
  set (new := {| handle := nextHandle c0; due := now c0 + 2000; callback := cb |}).
  assert (timers s1 = timers c0 ++ [new]) as Htimers by (by rewrite Hs1).
  assert (now s1 = now c0) as Hnow by (by rewrite Hs1).
  assert (∀ tm, tm ∈ timers s1 → callback tm ≠ clearIsTyping → tm = new) as Honly.
  { intros tm Hin Hcb. rewrite Htimers in Hin. apply elem_of_app in Hin as [Hin|Hin].
    - destruct (callback tm) as [f t'|] eqn:Hcb'; [|done].
      by destruct (clearSenderTimeout_no_emitStopTyping s0 tm f t' Htidy0 Hin).
    - by apply list_elem_of_singleton in Hin. }
  split; [|split].
  - rewrite Hs1. simpl. subst c0 s0. by rewrite emitted_clearSenderTimeout.
  - intros ms Hms. rewrite emitted_elapse. apply emitted_runTimers_early.
    intros tm Hin Hcb. rewrite (Honly tm Hin Hcb), Hnow. simpl. lia.
  - intros ms Hms. rewrite emitted_elapse.
    apply (emitted_runTimers_due _ _ _ new).
    + apply Htidy1.
    + done.
    + rewrite Htimers. apply elem_of_snoc.
    + done.
    + rewrite Hnow. simpl. lia.
    + exact Honly.
Qed.

End Sender.

Lemma activeChat_clearSenderTimeout s : activeChat (clearSenderTimeout s) = activeChat s.
Proof. clear_frame. Qed.

Lemma activeChat_clearReceiverTimeout s : activeChat (clearReceiverTimeout s) = activeChat s.
Proof. clear_frame. Qed.

Lemma activeChat_elapse ms s : activeChat (elapse ms s) = activeChat s.
Proof. unfold elapse. simpl. apply activeChat_runTimers. Qed.

Lemma activeChat_handleInputChange user text s :
  activeChat (handleInputChange user text s) = activeChat s.
Proof.
  unfold handleInputChange, armSenderTimeout, setTimeout.
  destruct (activeChat s) as [chat|] eqn:Hchat; [|done].
  destruct (socket s); [|done].
  destruct (bool_decide _); simpl; by rewrite activeChat_clearSenderTimeout.
Qed.

Section SenderClaims.

Variable user : User.t.
Variable t : string → string.
Variable getTime : string → option Z.

(** X7. The sender's side of the typing guard. In a reachable state with a
    conversation open, a keystroke that leaves the input non-empty emits one
    [typing] to the peer; with no further input nothing is emitted before
    2000 ms and one [stopTyping] to the peer from 2000 ms on. A further such
    keystroke less than 2000 ms later emits [typing] again and starts the
    2000 ms anew, so that a burst of keystrokes ends in one [stopTyping]. *)
Theorem typing_is_debounced (s : Chat) (chat : Friend.t) (text text' : string) :
  reachable user t getTime s →
  activeChat s = Some chat →
  text ≠ "" → text' ≠ "" →
  let typing := Emit.typing (User.userId user) (Friend.userId chat) in
  let stop := Emit.stopTyping (User.userId user) (Friend.userId chat) in
  let s1 := handleInputChange user text s in
  emitted s1 = emitted s ++ [typing] ∧
  (∀ ms, ms < 2000 → emitted (elapse ms s1) = emitted s1) ∧
  (∀ ms, 2000 <= ms → emitted (elapse ms s1) = emitted s1 ++ [stop]) ∧
  (∀ gap, gap < 2000 →
     let s2 := handleInputChange user text' (elapse gap s1) in
     emitted s2 = emitted s ++ [typing; typing] ∧
     (∀ ms, ms < 2000 → emitted (elapse ms s2) = emitted s2) ∧
     (∀ ms, 2000 <= ms → emitted (elapse ms s2) = emitted s2 ++ [stop])).
Proof using Type.
  intros Hreach Hchat Htext Htext' typing stop s1.
  apply reachable_tidy in Hreach as Htidy.
  destruct (handleInputChange_guard user s chat text Htidy Hchat Htext)
    as (H1 & H2 & H3).
  split; [exact H1|]. split; [exact H2|]. split; [exact H3|].
  intros gap Hgap s2.
  assert (tidy (elapse gap s1)) as Htidy1.
  { apply tidy_elapse. apply (tidy_step user t getTime s (inputChanged text) Htidy). }
  assert (activeChat (elapse gap s1) = Some chat) as Hchat1.
  { subst s1. by rewrite activeChat_elapse, activeChat_handleInputChange. }
  destruct (handleInputChange_guard user (elapse gap s1) chat text' Htidy1 Hchat1 Htext')
    as (H4 & H5 & H6).
  split; [|split; [exact H5 | exact H6]].
  subst s1 s2. rewrite H4, (H2 gap Hgap), H1.
  by rewrite <- app_assoc.
Qed.

(** X8. Emptying the input, in a reachable state with a conversation open,
    emits one [stopTyping] to the peer at once and cancels the idle timer:
    nothing more is emitted however long one waits. *)
Theorem empty_input_stops_typing (s : Chat) (chat : Friend.t) :
  reachable user t getTime s →
  activeChat s = Some chat →
  let s1 := handleInputChange user "" s in
  inputText s1 = "" ∧
  emitted s1 = emitted s ++ [Emit.stopTyping (User.userId user) (Friend.userId chat)] ∧
  (∀ ms, emitted (elapse ms s1) = emitted s1).
Proof using Type.
  intros Hreach Hchat s1.
  apply reachable_tidy in Hreach as Htidy.
  assert (socket s = true) as Hsock by apply Htidy.
  assert (s1 = emit (Emit.stopTyping (User.userId user) (Friend.userId chat))
                 (clearSenderTimeout (setInputText "" s))) as ->.
  { subst s1. unfold handleInputChange. by rewrite Hchat, Hsock. }
  split; [|split].
  - simpl. unfold clearSenderTimeout. by destruct (senderTypingTimeoutRef _).
  - simpl. by rewrite emitted_clearSenderTimeout.
  - intros ms.
    apply (emitted_elapse_after_clearSender (setInputText "" s));
      [by apply tidy_setInputText | done].
Qed.

(** X9. Sending a text, in a reachable state with a conversation open and
    an input of ASCII characters that is not blank, emits a [stopTyping] to
    the peer and then the message, appends the message to the log, empties
    the input and cancels the idle timer: no second [stopTyping] follows
    later. With a blank input or no conversation open it does nothing at
    all. On an input of ASCII characters [JS.blank] is [!inputText.trim()]
    exactly: the white space [trim] removes outside that range (U+00A0,
    U+3000 and the like) is not in such an input. *)
Theorem sendMessage_emits_once (s : Chat) (timestamp random36 : string) :
  reachable user t getTime s →
  asciiOnly (inputText s) = true →
  let s' := sendMessage user timestamp random36 s in
  match activeChat s with
  | Some chat =>
      if JS.blank (inputText s) then s' = s
      else
        let msgData := textMessage user chat (inputText s) timestamp random36 in
        emitted s' =
          emitted s ++ [Emit.stopTyping (User.userId user) (Friend.userId chat);
                        Emit.sendMessage msgData] ∧
        messages s' = messages s ++ [msgData] ∧
        inputText s' = "" ∧
        (∀ ms, emitted (elapse ms s') = emitted s')
  | None => s' = s
  end.
Proof using Type.
  intros Hreach _ s'.
  apply reachable_tidy in Hreach as Htidy.
  assert (socket s = true) as Hsock by apply Htidy.
  subst s'. unfold sendMessage.
  destruct (activeChat s) as [chat|]; [|done].
  destruct (JS.blank (inputText s)); [done|].
  rewrite Hsock. cbn [orb negb].
  split; [|split; [|split]].
  - simpl. by rewrite emitted_clearSenderTimeout, <- app_assoc.
  - simpl. by rewrite messages_clearSenderTimeout.
  - done.
  - intros ms. by apply (emitted_elapse_after_clearSender s).
Qed.

(** X10. In every reachable state at most two timers of the typing guard
    are pending: at most one that lowers the typing flag and at most one that
    emits [stopTyping]. *)
Theorem at_most_one_timer_per_kind (s : Chat) :
  reachable user t getTime s →
  (length (timers s) ≤ 2)%nat ∧
  (∀ x y, x ∈ timers s → y ∈ timers s →
          (callback x = clearIsTyping ↔ callback y = clearIsTyping) → x = y).
Proof using Type.
  intros Hreach. apply reachable_tidy in Hreach as Htidy.
  split; [|intros x y; by apply tidy_one_per_kind].
  destruct Htidy as (_ & Hnodup & _ & Htr).
  rewrite <- (length_fmap handle).
  transitivity (length (option_list (senderTypingTimeoutRef s)
                        ++ option_list (receiverTypingTimeoutRef s))).
  - apply submseteq_length, NoDup_submseteq; [done|].
    intros h (tm & -> & Hin)%list_elem_of_fmap.
    specialize (Htr tm Hin). unfold tracked in Htr. apply elem_of_app.
    destruct (callback tm); [left | right]; rewrite Htr; by apply list_elem_of_singleton.
  - rewrite length_app.
    destruct (senderTypingTimeoutRef s), (receiverTypingTimeoutRef s); simpl; lia.
Qed.

(** X4. The peer's typing events are scoped to the open conversation. A
    [userTyping] or [userStopTyping] from anyone but its peer leaves the state
    as it is. A [userStopTyping] from the peer, in a reachable state, lowers
    the flag and cancels the safety timer: no timer that lowers the flag
    stays pending, and nothing is emitted. *)
Theorem peer_typing_events_scoped (s : Chat) (fromUserId : string) :
  reachable user t getTime s →
  let s' := handleUserStopTyping fromUserId s in
  if activeIs fromUserId s
  then isTyping s' = false ∧
       (∀ tm, tm ∈ timers s' → callback tm ≠ clearIsTyping) ∧
       emitted s' = emitted s ∧ messages s' = messages s
  else s' = s ∧ handleUserTyping fromUserId s = s.
Proof using Type.
  intros Hreach s'. apply reachable_tidy in Hreach as Htidy.
  subst s'. unfold handleUserStopTyping, handleUserTyping.
  destruct (activeIs fromUserId s); [|done].
  simpl. rewrite isTyping_clearReceiverTimeout, emitted_clearReceiverTimeout,
    messages_clearReceiverTimeout.
  repeat split.
  intros tm Hin.
  by apply (clearReceiverTimeout_no_clearIsTyping (setIsTyping false s));
    [apply tidy_setIsTyping|].
Qed.

End SenderClaims.

(** X7, run: Alice types "h", then "hi" 1500 ms later, then stops. *)
Lemma typing_is_debounced_run :
  let s2 := run alice keys JS.isoTime bobWrote
              [inputChanged "h"; elapsed 1500; inputChanged "hi"] in
  emitted s2 = emitted bobWrote ++ [Emit.typing "alice" "bob"; Emit.typing "alice" "bob"] ∧
  emitted (elapse 1999 s2) = emitted s2 ∧
  emitted (elapse 2000 s2) = emitted s2 ++ [Emit.stopTyping "alice" "bob"].
Proof.
  destruct (typing_is_debounced alice keys JS.isoTime bobWrote bob "h" "hi")
    as (_ & _ & _ & H).
  - exists 0, [chatSelected bob; historySettled bob (Some [fromBob])]. reflexivity.
  - reflexivity.
  - discriminate.
  - discriminate.
  - destruct (H 1500 ltac:(lia)) as (H1 & H2 & H3).
    split; [exact H1|]. split; [apply H2; lia | apply H3; lia].
Defined.

(** X8, run: Alice clears the input while her idle timer is armed. *)
Lemma empty_input_stops_typing_run :
  let s1 := handleInputChange alice "" bothTyping in
  emitted s1 = emitted bothTyping ++ [Emit.stopTyping "alice" "bob"] ∧
  emitted (elapse 10000 s1) = emitted s1.
Proof.
  destruct (empty_input_stops_typing alice keys JS.isoTime bothTyping bob)
    as (_ & H2 & H3).
  - apply reachable_run.
    exists 0, [chatSelected bob; historySettled bob (Some [fromBob])]. reflexivity.
  - vm_compute. reflexivity.
  - split; [exact H2 | apply H3].
Defined.

(** X9, run: Alice sends the "hi" she typed. *)
Lemma sendMessage_emits_once_run :
  let s' := sendMessage alice "2024-03-01T12:00:00.000Z" "0.x7f3a2b1c" hiTyped in
  emitted s' = emitted hiTyped ++ [Emit.stopTyping "alice" "bob"; Emit.sendMessage hi1] ∧
  emitted (elapse 10000 s') = emitted s'.
Proof.
  pose proof (sendMessage_emits_once alice keys JS.isoTime hiTyped
                "2024-03-01T12:00:00.000Z" "0.x7f3a2b1c") as H.
  destruct H as (H1 & _ & _ & H4).
  - exists 0, [chatSelected bob; historySettled bob (Some []); inputChanged "hi"].
    reflexivity.
  - reflexivity.
  - split; [exact H1 | apply H4].
Defined.

(** X10, run: with both sides typing, two timers are pending. *)
Lemma at_most_one_timer_per_kind_run :
  (length (timers bothTyping) ≤ 2)%nat.
Proof.
  apply (at_most_one_timer_per_kind alice keys JS.isoTime bothTyping).
  apply reachable_run.
  exists 0, [chatSelected bob; historySettled bob (Some [fromBob])]. reflexivity.
Defined.

(** X4, run: Bob stops typing; Carol's typing is not shown in Bob's
    conversation. *)
Lemma peer_typing_events_scoped_run :
  isTyping (handleUserStopTyping "bob" bothTyping) = false ∧
  handleUserTyping "carol" bothTyping = bothTyping.
Proof.
  pose proof (peer_typing_events_scoped alice keys JS.isoTime bothTyping "bob") as Hbob.
  pose proof (peer_typing_events_scoped alice keys JS.isoTime bothTyping "carol") as Hcarol.
  assert (reachable alice keys JS.isoTime bothTyping) as Hreach.
  { apply reachable_run.
    exists 0, [chatSelected bob; historySettled bob (Some [fromBob])]. reflexivity. }
  specialize (Hbob Hreach). specialize (Hcarol Hreach).
  split; [apply Hbob | apply Hcarol].
Defined.

(** ** The typing flag expires *)

(** *** Firing timers: what stays *)

Lemma timers_fire tm s :
  timers (fire tm s) = filter (λ x, handle x ≠ handle tm) (timers s).
Proof. unfold fire. by destruct (callback tm). Qed.

Lemma refs_fire tm s :
  nextHandle (fire tm s) = nextHandle s ∧
  senderTypingTimeoutRef (fire tm s) = senderTypingTimeoutRef s ∧
  receiverTypingTimeoutRef (fire tm s) = receiverTypingTimeoutRef s ∧
  now (fire tm s) = now s.
Proof. unfold fire. by destruct (callback tm). Qed.

Lemma refs_runTimers fuel t s :
  nextHandle (runTimers fuel t s) = nextHandle s ∧
  senderTypingTimeoutRef (runTimers fuel t s) = senderTypingTimeoutRef s ∧
  receiverTypingTimeoutRef (runTimers fuel t s) = receiverTypingTimeoutRef s ∧
  now (runTimers fuel t s) = now s.
Proof.
  revert s. induction fuel as [|fuel IH]; intros s; simpl; [done|].
  destruct (nextDue t (timers s)) as [tm|]; [|done].
  destruct (IH (fire tm s)) as (-> & -> & -> & ->). apply refs_fire.
Qed.

Lemma elem_of_timers_runTimers fuel t s tm :
  tm ∈ timers (runTimers fuel t s) → tm ∈ timers s.
Proof.
  revert s. induction fuel as [|fuel IH]; intros s; simpl; [done|].
  destruct (nextDue t (timers s)) as [tm'|]; [|done].
  intros Hin%IH. rewrite timers_fire in Hin.
  by apply (list_elem_of_filter (λ x, handle x ≠ handle tm') (timers s) tm) in Hin as [_ ?].
Qed.

(** One round per pending timer fires every timer that is due. *)
Lemma runTimers_complete fuel t s tm :
  (length (timers s) ≤ fuel)%nat →
  tm ∈ timers (runTimers fuel t s) → t < due tm.
Proof.
  revert s. induction fuel as [|fuel IH]; intros s Hfuel Hin; simpl in Hin.
  - destruct (timers s); [by apply elem_of_nil in Hin | simpl in Hfuel; lia].
  - destruct (nextDue t (timers s)) as [tm'|] eqn:Hnext.
    + apply nextDue_Some in Hnext as [Hin' _].
      apply (IH (fire tm' s)); [|done].
      rewrite timers_fire.
      pose proof (length_filter_lt (λ x, handle x ≠ handle tm') (timers s) tm' Hin') as Hlt.
      assert (¬ handle tm' ≠ handle tm') as Hnn by (intros H; by apply H).
      specialize (Hlt Hnn). lia.
    + by apply (nextDue_None _ _ Hnext).
Qed.

(** A pending [clearIsTyping] is still pending once the timers ran, or the
    flag is down. *)
Lemma runTimers_keeps_or_lowers fuel t s tm :
  NoDup (handle <$> timers s) →
  tm ∈ timers s → callback tm = clearIsTyping →
  tm ∈ timers (runTimers fuel t s) ∨ isTyping (runTimers fuel t s) = false.
Proof.
  revert s. induction fuel as [|fuel IH]; intros s Hnodup Hin Hcb; simpl; [by left|].
  destruct (nextDue t (timers s)) as [tm'|] eqn:Hnext; [|by left].
  apply nextDue_Some in Hnext as [Hin' _].
  destruct (callback tm') as [from to|] eqn:Hcb'.
  - apply IH; [| |done].
    + rewrite timers_fire. by apply NoDup_handles_filter.
    + rewrite timers_fire.
      apply (list_elem_of_filter (λ x, handle x ≠ handle tm') (timers s) tm).
      split; [|done]. intros Heq.
      assert (tm = tm') as -> by (by apply (NoDup_handles_inj (timers s))).
      congruence.
  - right. apply isTyping_runTimers_false. unfold fire. by rewrite Hcb'.
Qed.

Lemma elem_of_timers_clearSenderTimeout tm s :
  tm ∈ timers (clearSenderTimeout s) → tm ∈ timers s.
Proof.
  unfold clearSenderTimeout. destruct (senderTypingTimeoutRef s); [|done].
  by intros [_ ?]%elem_of_timers_clearTimeout.
Qed.

(** Cancelling the sender's timer leaves the receiver's pending. *)
Lemma clearSenderTimeout_keeps s tm :
  tidy s → wellTimed s → tm ∈ timers s → callback tm = clearIsTyping →
  tm ∈ timers (clearSenderTimeout s).
Proof.
  intros (_ & _ & _ & Htr) (_ & _ & Hne & _) Hin Hcb.
  unfold clearSenderTimeout.
  destruct (senderTypingTimeoutRef s) as [h|] eqn:Href; [|done].
  apply elem_of_timers_clearTimeout. split; [|done].
  specialize (Htr tm Hin). unfold tracked in Htr. rewrite Hcb in Htr.
  intros Heq. apply (Hne h eq_refl). by rewrite Htr, Heq.
Qed.

(** *** The clock side of the discipline holds in every reachable state *)

Lemma wellTimed_ext (s s' : Chat) :
  nextHandle s' = nextHandle s →
  senderTypingTimeoutRef s' = senderTypingTimeoutRef s →
  receiverTypingTimeoutRef s' = receiverTypingTimeoutRef s →
  now s' = now s →
  (∀ tm, tm ∈ timers s' → tm ∈ timers s) →
  wellTimed s → wellTimed s'.
Proof.
  unfold wellTimed. intros -> -> -> -> Hsub (Hs & Hr & Hne & Hdue).
  split; [done|]. split; [done|]. split; [done|].
  intros tm Hin. by apply Hdue, Hsub.
Qed.

Ltac wellTimed_same :=
  eapply wellTimed_ext;
    [reflexivity | reflexivity | reflexivity | reflexivity | by intros ? ? | ].

Lemma wellTimed_setActiveChat v s : wellTimed s → wellTimed (setActiveChat v s).
Proof. intros. by wellTimed_same. Qed.
Lemma wellTimed_setMessages f s : wellTimed s → wellTimed (setMessages f s).
Proof. intros. by wellTimed_same. Qed.
Lemma wellTimed_setInputText v s : wellTimed s → wellTimed (setInputText v s).
Proof. intros. by wellTimed_same. Qed.
Lemma wellTimed_setIsTyping v s : wellTimed s → wellTimed (setIsTyping v s).
Proof. intros. by wellTimed_same. Qed.
Lemma wellTimed_setIsLoading v s : wellTimed s → wellTimed (setIsLoading v s).
Proof. intros. by wellTimed_same. Qed.
Lemma wellTimed_emit e s : wellTimed s → wellTimed (emit e s).
Proof. intros. by wellTimed_same. Qed.
Lemma wellTimed_showToast message type s : wellTimed s → wellTimed (showToast message type s).
Proof. intros. by wellTimed_same. Qed.

Lemma wellTimed_clearTimeout h s : wellTimed s → wellTimed (clearTimeout h s).
Proof.
  apply wellTimed_ext; try reflexivity.
  by intros tm [_ ?]%elem_of_timers_clearTimeout.
Qed.

Lemma wellTimed_clearSenderTimeout s : wellTimed s → wellTimed (clearSenderTimeout s).
Proof.
  unfold clearSenderTimeout. destruct (senderTypingTimeoutRef s); [|done].
  apply wellTimed_clearTimeout.
Qed.

Lemma wellTimed_clearReceiverTimeout s : wellTimed s → wellTimed (clearReceiverTimeout s).
Proof.
  unfold clearReceiverTimeout. destruct (receiverTypingTimeoutRef s); [|done].
  apply wellTimed_clearTimeout.
Qed.

(** A timer queued with a positive delay is not overdue, and its handle is
    a new one. *)
Lemma wellTimed_arm (cb : Callback) (delay : Z) (s : Chat) :
  0 < delay → wellTimed s →
  wellTimed (armSenderTimeout cb delay s) ∧ wellTimed (armReceiverTimeout cb delay s).
Proof.
  intros Hdelay (Hs & Hr & Hne & Hdue).
  assert (∀ tm, tm ∈ timers s ++ [{| handle := nextHandle s; due := now s + delay;
                                     callback := cb |}] → now s < due tm) as Hdue'.
  { intros tm [Hin| ->%list_elem_of_singleton]%elem_of_app; [by apply Hdue | simpl; lia]. }
  unfold armSenderTimeout, armReceiverTimeout, setTimeout.
  split; (split; [|split; [|split]]); simpl.
  - intros h [= <-]. lia.
  - intros h Hh. specialize (Hr h Hh). lia.
  - intros h [= <-] Hh. specialize (Hr _ Hh). lia.
  - exact Hdue'.
  - intros h Hh. specialize (Hs h Hh). lia.
  - intros h [= <-]. lia.
  - intros h Hh [= Heq]. specialize (Hs h Hh). lia.
  - exact Hdue'.
Qed.

Lemma wellTimed_armSender cb s : wellTimed s → wellTimed (armSenderTimeout cb 2000 s).
Proof. intros H. by apply wellTimed_arm. Qed.

Lemma wellTimed_armReceiver cb s : wellTimed s → wellTimed (armReceiverTimeout cb 5000 s).
Proof. intros H. by apply wellTimed_arm. Qed.

Lemma wellTimed_elapse ms s : wellTimed s → wellTimed (elapse ms s).
Proof.
  intros (Hs & Hr & Hne & _). unfold elapse.
  destruct (refs_runTimers (length (timers s)) (now s + Z.max 0 ms) s)
    as (Hn & Hsr & Hrr & _).
  split; [|split; [|split]]; simpl.
  - rewrite Hn, Hsr. exact Hs.
  - rewrite Hn, Hrr. exact Hr.
  - rewrite Hsr, Hrr. exact Hne.
  - intros tm Hin. by apply (runTimers_complete (length (timers s)) _ s).
Qed.

Lemma wellTimed_mounted t0 : wellTimed (mounted t0).
Proof.
  split; [done|]. split; [done|]. split; [done|].
  intros tm Hin. by apply elem_of_nil in Hin.
Qed.

Create HintDb wellTimed discriminated.
#[global] Hint Resolve
  wellTimed_setActiveChat wellTimed_setMessages wellTimed_setInputText
  wellTimed_setIsTyping wellTimed_setIsLoading wellTimed_emit wellTimed_showToast
  wellTimed_clearSenderTimeout wellTimed_clearReceiverTimeout
  wellTimed_armSender wellTimed_armReceiver wellTimed_elapse wellTimed_mounted
  : wellTimed.

(** *** The flag between a typing event and its deadline *)

Lemma up_ext (deadline : Z) (peer : string) (s s' : Chat) :
  isTyping s' = isTyping s →
  now s' = now s →
  activeChat s' = activeChat s →
  (∀ tm, tm ∈ timers s' → callback tm = clearIsTyping → tm ∈ timers s) →
  up deadline peer s → up deadline peer s'.
Proof.
  intros Hf Hn Ha Hsub (H1 & H2 & H3 & H4).
  split; [congruence|]. split; [lia|]. split.
  - rewrite Ha. exact H3.
  - intros tm Hin Hcb. apply H4; [by apply Hsub | done].
Qed.

Lemma covered_keep (deadline : Z) (peer : string) (s s' : Chat) :
  activeChat s' = activeChat s →
  isTyping s' = isTyping s →
  (∀ tm, tm ∈ timers s → callback tm = clearIsTyping → tm ∈ timers s') →
  covered deadline peer s → covered deadline peer s'.
Proof.
  unfold covered, activeIs. intros -> -> Hsub Hcov Ha Hf.
  destruct (Hcov Ha Hf) as (tm & Hin & Hcb & Hdue). exists tm. auto.
Qed.

Lemma covered_lowered (deadline : Z) (peer : string) (s : Chat) :
  isTyping s = false → covered deadline peer s.
Proof. intros H _ H'. congruence. Qed.

Lemma covered_closed (deadline : Z) (peer : string) (s : Chat) :
  activeIs peer s = false → covered deadline peer s.
Proof. intros H H'. congruence. Qed.

Section Expiry.

Variable user : User.t.
Variable t : string → string.
Variable getTime : string → option Z.

Lemma wellTimed_step (s : Chat) (e : Event) :
  wellTimed s → wellTimed (step user t getTime s e).
Proof using Type.
  intros Hwell.
  destruct e; simpl;
    unfold handleConnect, handleReceiveMessage, handleMessageSent,
      handleMessageRecalled, handleMessageDeleted, handleRecallError,
      handleNewRequest, handleRequestAccepted, handleMessagesRead,
      handleUserTyping, handleUserStopTyping, selectChat, selectChat_settled,
      handleBackToFriends, handleInputChange, sendMessage, handleRecallMessage,
      handleDeleteMessage, handleFileUpload_settled, handleVoiceRecorded,
      handleVoiceRecorded_settled;
    repeat case_match; auto 20 with wellTimed.
Qed.

Lemma wellTimed_run (events : list Event) (s : Chat) :
  wellTimed s → wellTimed (run user t getTime s events).
Proof using Type.
  revert s. induction events as [|e events IH]; intros s Hwell; simpl; [done|].
  by apply IH, wellTimed_step.
Qed.

Lemma reachable_wellTimed (s : Chat) : reachable user t getTime s → wellTimed s.
Proof using Type.
  intros (t0 & events & ->). apply wellTimed_run, wellTimed_mounted.
Qed.

(** The clock never goes back. *)
Lemma now_step (s : Chat) (e : Event) : now s ≤ now (step user t getTime s e).
Proof using Type.
  destruct e; simpl;
    unfold handleConnect, handleReceiveMessage, handleMessageSent,
      handleMessageRecalled, handleMessageDeleted, handleRecallError,
      handleNewRequest, handleRequestAccepted, handleMessagesRead,
      handleUserTyping, handleUserStopTyping, selectChat, selectChat_settled,
      handleBackToFriends, handleInputChange, sendMessage, handleRecallMessage,
      handleDeleteMessage, handleFileUpload_settled, handleVoiceRecorded,
      handleVoiceRecorded_settled, armSenderTimeout, armReceiverTimeout, setTimeout;
    cbn beta iota;
    repeat case_match; simpl;
    rewrite ?now_clearReceiverTimeout, ?now_clearSenderTimeout; simpl; lia.
Qed.

Lemma now_run (events : list Event) (s : Chat) :
  now s ≤ now (run user t getTime s events).
Proof using Type.
  revert s. induction events as [|e events IH]; intros s; simpl; [lia|].
  pose proof (now_step s e). pose proof (IH (step user t getTime s e)). lia.
Qed.

Lemma up_step (deadline : Z) (peer : string) (s : Chat) (e : Event) :
  up deadline peer s →
  quiet peer e = true →
  now (step user t getTime s e) < deadline →
  up deadline peer (step user t getTime s e).
Proof using Type.
  intros Hup Hq Hnow.
  pose proof Hup as (Hflag & Hclock & Hchat & Hlate).
  assert (∀ s', isTyping s' = isTyping s → now s' = now s →
                activeChat s' = activeChat s →
                (∀ tm, tm ∈ timers s' → callback tm = clearIsTyping → tm ∈ timers s) →
                up deadline peer s') as Hext.
  { intros s' ? ? ? ?. by apply (up_ext deadline peer s). }
  assert (∀ s', isTyping s' = isTyping s → now s' = now s →
                activeChat s' = activeChat s → timers s' = timers s →
                up deadline peer s') as Hsame.
  { intros s' ? ? ? Htm. apply Hext; [done..|]. rewrite Htm. auto. }
  destruct e as [ | msg | data | messageId | message | messageId actor deletedAt | byUserId | |
               | x | x | friend | friend history | | value | sentAt random36
               | messageId | messageId deletedAt | chat upload sentAt
               | localUrl duration sentAt random36
               | chat localUrl duration sentAt random36 upload | ms ];
    simpl in Hq; try discriminate; simpl.
  - (* connect *) by apply Hsame.
  - (* receiveMessage *)
    apply bool_decide_eq_true in Hq as [Hfrom Hto].
    unfold handleReceiveMessage.
    destruct (activeChat s) as [chat|] eqn:Hactive; [|done].
    specialize (Hchat chat eq_refl).
    destruct (bool_decide_reflect (fromUserId msg = Friend.userId chat)); [congruence|].
    destruct (bool_decide_reflect (toUserId msg = Friend.userId chat)); [congruence|].
    done.
  - (* messageSent *) by apply Hsame.
  - (* messageRecalled *) by apply Hsame.
  - (* recallError *) by apply Hsame.
  - (* messageDeleted *) by apply Hsame.
  - (* messagesRead *)
    unfold handleMessagesRead. destruct (activeIs byUserId s); [by apply Hsame | done].
  - (* newFriendRequest *) by apply Hsame.
  - (* friendRequestAccepted *) by apply Hsame.
  - (* userTyping *)
    unfold handleUserTyping. destruct (activeIs x s); [|done].
    unfold armReceiverTimeout, setTimeout.
    split; [|split; [|split]]; simpl.
    + by rewrite isTyping_clearReceiverTimeout.
    + by rewrite now_clearReceiverTimeout.
    + by rewrite activeChat_clearReceiverTimeout.
    + intros tm [Hin| ->%list_elem_of_singleton]%elem_of_app Hcb.
      * apply Hlate; [|done]. by apply elem_of_timers_clearReceiverTimeout in Hin.
      * simpl. rewrite now_clearReceiverTimeout. simpl. lia.
  - (* userStopTyping *)
    apply bool_decide_eq_true in Hq.
    unfold handleUserStopTyping. destruct (activeIs x s) eqn:Hactive; [|done].
    unfold activeIs in Hactive.
    destruct (activeChat s) as [chat|]; [|done].
    apply bool_decide_eq_true in Hactive. specialize (Hchat chat eq_refl). congruence.
  - (* historySettled *)
    unfold selectChat_settled. destruct history; [destruct (socket s)|]; by apply Hsame.
  - (* backToFriends *)
    split; [done|]. split; [done|]. split; [by intros chat [=] | done].
  - (* inputChanged *)
    unfold handleInputChange.
    destruct (activeChat s) as [chat|] eqn:Hactive; [|by apply Hsame].
    destruct (socket s); [|by apply Hsame].
    destruct (bool_decide _); unfold armSenderTimeout, setTimeout; apply Hext; simpl;
      rewrite ?isTyping_clearSenderTimeout, ?now_clearSenderTimeout,
        ?activeChat_clearSenderTimeout; try done.
    + intros tm [Hin| ->%list_elem_of_singleton]%elem_of_app Hcb; [|done].
      by apply elem_of_timers_clearSenderTimeout in Hin.
    + intros tm Hin _. by apply elem_of_timers_clearSenderTimeout in Hin.
  - (* sendClicked *)
    unfold sendMessage.
    destruct (activeChat s) as [chat|] eqn:Hactive; [|done].
    destruct (_ || _); [done|].
    apply Hext; simpl;
      rewrite ?isTyping_clearSenderTimeout, ?now_clearSenderTimeout,
        ?activeChat_clearSenderTimeout; try done.
    intros tm Hin _. by apply elem_of_timers_clearSenderTimeout in Hin.
  - (* recallClicked *)
    unfold handleRecallMessage. repeat case_match; by apply Hsame.
  - (* deleteClicked *)
    unfold handleDeleteMessage. repeat case_match; done || by apply Hsame.
  - (* imageSettled *)
    unfold handleFileUpload_settled. destruct upload; by apply Hsame.
  - (* voiceRecorded *)
    unfold handleVoiceRecorded. repeat case_match; done || by apply Hsame.
  - (* voiceSettled *)
    unfold handleVoiceRecorded_settled. destruct upload; by apply Hsame.
  - (* elapsed *)
    assert (now (elapse ms s) = now s + Z.max 0 ms) as Hclock' by reflexivity.
    change (now s + Z.max 0 ms < deadline) in Hnow.
    split; [|split; [|split]].
    + rewrite isTyping_elapse, isTyping_runTimers_early; [done|].
      intros tm Hin Hcb. specialize (Hlate tm Hin Hcb). lia.
    + rewrite Hclock'. lia.
    + by rewrite activeChat_elapse.
    + intros tm Hin Hcb. apply Hlate; [|done].
      by apply (elem_of_timers_runTimers (length (timers s)) (now s + Z.max 0 ms)).
Qed.

Lemma up_run (deadline : Z) (peer : string) (events : list Event) (s : Chat) :
  up deadline peer s →
  Forall (λ e, quiet peer e = true) events →
  now (run user t getTime s events) < deadline →
  up deadline peer (run user t getTime s events).
Proof using Type.
  revert s. induction events as [|e events IH]; intros s Hup Hq Hnow; simpl in *; [done|].
  apply Forall_cons in Hq as [He Hq].
  apply IH; [|done..]. apply up_step; [done..|].
  pose proof (now_run events (step user t getTime s e)). lia.
Qed.

Lemma covered_step (deadline : Z) (peer : string) (s : Chat) (e : Event) :
  tidy s → wellTimed s →
  e ≠ userTyping peer →
  covered deadline peer s → covered deadline peer (step user t getTime s e).
Proof using Type.
  intros Htidy Hwell He Hcov.
  assert (∀ s', activeChat s' = activeChat s → isTyping s' = isTyping s →
                timers s' = timers s → covered deadline peer s') as Hsame.
  { intros s' ? ? Htm. apply (covered_keep deadline peer s); [done..| |done].
    rewrite Htm. auto. }
  destruct e as [ | msg | data | messageId | message | messageId actor deletedAt | byUserId | |
               | x | x | friend | friend history | | value | sentAt random36
               | messageId | messageId deletedAt | chat upload sentAt
               | localUrl duration sentAt random36
               | chat localUrl duration sentAt random36 upload | ms ]; simpl.
  - (* connect *) by apply Hsame.
  - (* receiveMessage *)
    unfold handleReceiveMessage.
    destruct (activeChat s) as [chat|]; [|done].
    destruct (_ || _); [|done].
    destruct (bool_decide _); apply covered_lowered; simpl;
      by rewrite isTyping_clearReceiverTimeout.
  - (* messageSent *) by apply Hsame.
  - (* messageRecalled *) by apply Hsame.
  - (* recallError *) by apply Hsame.
  - (* messageDeleted *) by apply Hsame.
  - (* messagesRead *)
    unfold handleMessagesRead. destruct (activeIs byUserId s); [by apply Hsame | done].
  - (* newFriendRequest *) by apply Hsame.
  - (* friendRequestAccepted *) by apply Hsame.
  - (* userTyping *)
    unfold handleUserTyping. destruct (activeIs x s) eqn:Hactive; [|done].
    apply covered_closed. unfold activeIs in *.
    unfold armReceiverTimeout, setTimeout. simpl.
    rewrite activeChat_clearReceiverTimeout. simpl.
    destruct (activeChat s) as [chat|]; [|done].
    apply bool_decide_eq_true in Hactive. apply bool_decide_eq_false.
    intros Hpeer. apply He. congruence.
  - (* userStopTyping *)
    unfold handleUserStopTyping. destruct (activeIs x s); [|done].
    apply covered_lowered. simpl. by rewrite isTyping_clearReceiverTimeout.
  - (* chatSelected *)
    apply covered_lowered. unfold selectChat. by repeat case_match.
  - (* historySettled *)
    unfold selectChat_settled. destruct history; [destruct (socket s)|]; by apply Hsame.
  - (* backToFriends *)
    by apply covered_closed.
  - (* inputChanged *)
    unfold handleInputChange.
    destruct (activeChat s) as [chat|] eqn:Hactive; [|by apply Hsame].
    destruct (socket s); [|by apply Hsame].
    destruct (bool_decide _); unfold armSenderTimeout, setTimeout;
      apply (covered_keep deadline peer s); simpl;
      rewrite ?isTyping_clearSenderTimeout, ?activeChat_clearSenderTimeout; try done.
    + intros tm Hin Hcb. apply elem_of_app. left.
      apply clearSenderTimeout_keeps; [auto with tidy | auto with wellTimed | done..].
    + intros tm Hin Hcb.
      apply clearSenderTimeout_keeps; [auto with tidy | auto with wellTimed | done..].
  - (* sendClicked *)
    unfold sendMessage.
    destruct (activeChat s) as [chat|] eqn:Hactive; [|done].
    destruct (_ || _); [done|].
    apply (covered_keep deadline peer s); simpl;
      rewrite ?isTyping_clearSenderTimeout, ?activeChat_clearSenderTimeout; try done.
    intros tm Hin Hcb. by apply clearSenderTimeout_keeps.
  - (* recallClicked *)
    unfold handleRecallMessage. repeat case_match; by apply Hsame.
  - (* deleteClicked *)
    unfold handleDeleteMessage. repeat case_match; done || by apply Hsame.
  - (* imageSettled *)
    unfold handleFileUpload_settled. destruct upload; by apply Hsame.
  - (* voiceRecorded *)
    unfold handleVoiceRecorded. repeat case_match; done || by apply Hsame.
  - (* voiceSettled *)
    unfold handleVoiceRecorded_settled. destruct upload; by apply Hsame.
  - (* elapsed *)
    intros Hactive Hflag. rewrite activeIs_elapse in Hactive.
    rewrite isTyping_elapse in Hflag.
    assert (isTyping s = true) as Hflag0.
    { destruct (isTyping s) eqn:Hf; [done|].
      by rewrite isTyping_runTimers_false in Hflag. }
    destruct (Hcov Hactive Hflag0) as (tm & Hin & Hcb & Hdue).
    exists tm. split; [|done].
    destruct (runTimers_keeps_or_lowers (length (timers s)) (now s + Z.max 0 ms) s tm)
      as [Hkept|Hlow]; [apply Htidy | done | done | exact Hkept | congruence].
Qed.

Lemma covered_run (deadline : Z) (peer : string) (events : list Event) (s : Chat) :
  tidy s → wellTimed s →
  Forall (λ e, e ≠ userTyping peer) events →
  covered deadline peer s → covered deadline peer (run user t getTime s events).
Proof using Type.
  revert s. induction events as [|e events IH]; intros s Htidy Hwell Hev Hcov; simpl;
    [done|].
  apply Forall_cons in Hev as [He Hev].
  apply IH; [by apply tidy_step | by apply wellTimed_step | done |].
  by apply covered_step.
Qed.

(** C7. In a reachable state, a typing event from the peer of the open
    conversation raises the flag and leaves one timer pending that lowers
    it, due 5000 ms later: the timer of an earlier typing event is replaced,
    not kept, so each typing event re-arms the guard.

    From then on, whatever else happens (keystrokes, sends, recalls,
    confirmations, messages of other conversations, typing events, time
    passing):
    - the flag stays up as long as the clock is before the deadline and
      nothing lowers it by itself (a message of this conversation, a
      [userStopTyping] of the peer, a conversation switch);
    - if no further typing event of that peer arrives, the flag is down at
      any time from the deadline on at which the conversation is open. *)
Theorem typing_flag_expires (s : Chat) (fromUserId : string) :
  reachable user t getTime s →
  activeIs fromUserId s = true →
  let s1 := handleUserTyping fromUserId s in
  let deadline := now s + 5000 in
  isTyping s1 = true ∧
  (∃ tm, tm ∈ timers s1 ∧ callback tm = clearIsTyping ∧ due tm = deadline ∧
         ∀ tm', tm' ∈ timers s1 → callback tm' = clearIsTyping → tm' = tm) ∧
  (∀ events,
     Forall (λ e, quiet fromUserId e = true) events →
     now (run user t getTime s1 events) < deadline →
     isTyping (run user t getTime s1 events) = true) ∧
  (∀ events,
     Forall (λ e, e ≠ userTyping fromUserId) events →
     deadline ≤ now (run user t getTime s1 events) →
     activeIs fromUserId (run user t getTime s1 events) = true →
     isTyping (run user t getTime s1 events) = false).
Proof using Type.
  intros Hreach Hactive s1 deadline.
  apply reachable_tidy in Hreach as Htidy.
  apply reachable_wellTimed in Hreach as Hwell.
  assert (s1 = step user t getTime s (userTyping fromUserId)) as Hstep by reflexivity.
  assert (tidy s1) as Htidy1 by (rewrite Hstep; by apply tidy_step).
  assert (wellTimed s1) as Hwell1 by (rewrite Hstep; by apply wellTimed_step).
  set (s0 := clearReceiverTimeout (setIsTyping true s)).
  set (new := {| handle := nextHandle s0; due := now s0 + 5000; callback := clearIsTyping |}).
  assert (s1 = armReceiverTimeout clearIsTyping 5000 s0) as Hs1.
  { subst s1 s0. unfold handleUserTyping. by rewrite Hactive. }
  assert (timers s1 = timers s0 ++ [new]) as Htimers by (by rewrite Hs1).
  assert (now s1 = now s) as Hnow.
  { rewrite Hs1. subst s0. unfold armReceiverTimeout, setTimeout. simpl.
    by rewrite now_clearReceiverTimeout. }
  assert (due new = deadline) as Hdue.
  { subst new s0 deadline. simpl. by rewrite now_clearReceiverTimeout. }
  assert (isTyping s1 = true) as Hflag.
  { rewrite Hs1. subst s0. unfold armReceiverTimeout, setTimeout. simpl.
    by rewrite isTyping_clearReceiverTimeout. }
  assert (activeChat s1 = activeChat s) as Hchat.
  { rewrite Hs1. subst s0. unfold armReceiverTimeout, setTimeout. simpl.
    by rewrite activeChat_clearReceiverTimeout. }
  assert (new ∈ timers s1) as Hnew by (rewrite Htimers; apply elem_of_snoc).
  assert (∀ tm', tm' ∈ timers s1 → callback tm' = clearIsTyping → tm' = new) as Honly.
  { intros tm' Hin Hcb. by apply (tidy_one_per_kind s1). }
  split; [exact Hflag|]. split; [by exists new|]. split.
  - intros events Hquiet Hbefore.
    apply (up_run deadline fromUserId events s1); [|done..].
    split; [done|]. split; [lia|]. split.
    + rewrite Hchat. intros chat Hc. unfold activeIs in Hactive. rewrite Hc in Hactive.
      by apply bool_decide_eq_true in Hactive.
    + intros tm Hin Hcb. rewrite (Honly tm Hin Hcb). lia.
  - intros events Hnone Hafter Hopen.
    set (s2 := run user t getTime s1 events) in *.
    assert (covered deadline fromUserId s2) as Hcov.
    { apply covered_run; [done..|]. intros _ _. exists new. split; [done|].
      split; [done | lia]. }
    destruct (isTyping s2) eqn:Hup; [|done].
    destruct (Hcov Hopen Hup) as (tm & Hin & _ & Hdue').
    assert (wellTimed s2) as (_ & _ & _ & Hpunctual) by (by apply wellTimed_run).
    specialize (Hpunctual tm Hin). lia.
Qed.

End Expiry.

(** C7, run: Bob starts typing while Alice has his conversation open. A
    keystroke of Alice's does not keep the flag up past the deadline, and a
    second typing event of Bob's after 3000 ms moves the deadline. *)
Lemma typing_flag_expires_run :
  let s1 := handleUserTyping "bob" bobWrote in
  let s2 := handleUserTyping "bob" (run alice keys JS.isoTime s1 [elapsed 3000]) in
  isTyping s1 = true ∧
  isTyping (run alice keys JS.isoTime s1 [inputChanged "h"; elapsed 4999]) = true ∧
  isTyping (run alice keys JS.isoTime s1 [inputChanged "h"; elapsed 5000]) = false ∧
  isTyping (run alice keys JS.isoTime s2 [inputChanged "hi"; elapsed 4000]) = true ∧
  isTyping (run alice keys JS.isoTime s2 [inputChanged "hi"; elapsed 5000]) = false.
Proof.
  intros s1 s2.
  assert (reachable alice keys JS.isoTime bobWrote) as Hreach.
  { exists 0, [chatSelected bob; historySettled bob (Some [fromBob])]. reflexivity. }
  destruct (typing_flag_expires alice keys JS.isoTime bobWrote "bob" Hreach)
    as (H1 & _ & H2 & H3); [reflexivity|].
  destruct (typing_flag_expires alice keys JS.isoTime
              (run alice keys JS.isoTime s1 [elapsed 3000]) "bob")
    as (_ & _ & H4 & H5).
  { apply (reachable_run alice keys JS.isoTime bobWrote [userTyping "bob"; elapsed 3000]).
    exact Hreach. }
  { vm_compute. reflexivity. }
  split; [exact H1|].
  split; [apply H2; [repeat constructor | vm_compute; reflexivity]|].
  split; [apply H3; [repeat constructor; discriminate | vm_compute; discriminate
                    | vm_compute; reflexivity]|].
  split; [apply H4; [repeat constructor | vm_compute; reflexivity]|].
  apply H5; [repeat constructor; discriminate | vm_compute; discriminate
            | vm_compute; reflexivity].
Defined.

(** ** services/api.ts: image URLs and the shared connection *)

(** X13. [normalizeImageUrl] returns the empty string for an absent or
    empty URL and otherwise an absolute URL (one that starts with [http] or
    [blob:]); applying it to its own result changes nothing. *)
Theorem normalizeImageUrl_idempotent (url : option string) :
  let r := Api.normalizeImageUrl url in
  (r = "" ↔ url = None ∨ url = Some "") ∧
  (r = "" ∨ Api.startsWith "http" r = true ∨ Api.startsWith "blob:" r = true) ∧
  Api.normalizeImageUrl (Some r) = r.
Proof.
  intros r. subst r. unfold Api.normalizeImageUrl.
  destruct url as [u|]; [|split; [split; auto|]; split; auto].
  destruct u as [|c u]; [split; [split; auto|]; split; auto|].
  cbn [JS.truthy negb].
  set (url := String c u).
  destruct (Api.startsWith "http" url) eqn:Hhttp; cbn [orb].
  { split; [split; [discriminate | intros [?|?]; discriminate]|].
    split; [auto|]. by rewrite Hhttp. }
  destruct (Api.startsWith "blob:" url) eqn:Hblob.
  { split; [split; [discriminate | intros [?|?]; discriminate]|].
    split; [auto|]. by rewrite Hhttp, Hblob. }
  destruct (Api.startsWith "ms/" _); simpl;
    (split; [split; [discriminate | intros [?|?]; discriminate]|]);
    (split; [right; left; reflexivity | reflexivity]).
Qed.

(** X14. A path on the server may be given with or without a leading slash
    and with or without the [ms/] prefix: all four spellings of a relative
    path are normalized to the same URL under the API base. *)
Theorem normalizeImageUrl_spellings (path : string) :
  path ≠ "" →
  Api.startsWith "http" path = false →
  Api.startsWith "blob:" path = false →
  Api.startsWith "/" path = false →
  Api.startsWith "ms/" path = false →
  Api.normalizeImageUrl (Some path) = Api.API_BASE_URL +:+ path ∧
  Api.normalizeImageUrl (Some ("/" +:+ path)) = Api.API_BASE_URL +:+ path ∧
  Api.normalizeImageUrl (Some ("ms/" +:+ path)) = Api.API_BASE_URL +:+ path ∧
  Api.normalizeImageUrl (Some ("/ms/" +:+ path)) = Api.API_BASE_URL +:+ path.
Proof.
  intros Hne Hhttp Hblob Hslash Hms. unfold Api.normalizeImageUrl.
  destruct path as [|c p]; [done|].
  split; [|split; [|split]].
  - cbn [JS.truthy negb]. by rewrite Hhttp, Hblob, Hslash, Hms.
  - change ("/" +:+ String c p) with (String "/" (String c p)). cbn [JS.truthy negb].
    assert (Api.startsWith "http" (String "/" (String c p)) = false) as -> by reflexivity.
    assert (Api.startsWith "blob:" (String "/" (String c p)) = false) as -> by reflexivity.
    assert (Api.startsWith "/" (String "/" (String c p)) = true) as -> by reflexivity.
    cbn [orb Api.slice1]. by rewrite Hms.
  - reflexivity.
  - reflexivity.
Qed.

(** X14, run: an upload path as the server returns it. *)
Lemma normalizeImageUrl_spellings_run :
  Api.normalizeImageUrl (Some "/ms/uploads/a.png")
  = Api.normalizeImageUrl (Some "uploads/a.png").
Proof.
  destruct (normalizeImageUrl_spellings "uploads/a.png") as (H1 & _ & _ & H4).
  - discriminate.
  - reflexivity.
  - reflexivity.
  - reflexivity.
  - reflexivity.
  - exact (eq_trans H4 (eq_sym H1)).
Defined.

Lemma call_invariant (net : Api.Net) (c : Api.Call) :
  Api.opened net = Api.disconnected net ++ option_list (Api.current net) →
  Api.opened (Api.call net c)
  = Api.disconnected (Api.call net c) ++ option_list (Api.current (Api.call net c)).
Proof.
  intros Hinv. destruct c as [userId|]; simpl.
  - unfold Api.getSocket. destruct (Api.current net) as [sock|] eqn:Hcur; simpl.
    + by rewrite Hcur.
    + rewrite Hinv. simpl. by rewrite app_nil_r.
  - unfold Api.disconnectSocket. destruct (Api.current net) as [sock|] eqn:Hcur; simpl.
    + rewrite Hinv. simpl. by rewrite app_nil_r.
    + by rewrite Hcur.
Qed.

(** X15. Whatever the pages call, at most one connection is open: the
    connections opened are those disconnected followed by the one held, if
    any. While one is held, [getSocket] opens nothing and returns it whatever
    user it is asked for, so that a second user gets the connection that
    carries the first user's id in its query. *)
Theorem getSocket_single_connection (calls : list Api.Call) (userId other : string) :
  let net := foldl Api.call Api.offline calls in
  Api.opened net = Api.disconnected net ++ option_list (Api.current net) ∧
  (let '(sock, net1) := Api.getSocket userId net in
   Api.current net1 = Some sock ∧
   Api.getSocket other net1 = (sock, net1)) ∧
  Api.query_userId (Api.getSocket other (Api.getSocket userId Api.offline).2).1 = userId.
Proof.
  intros net. split; [|split; [|reflexivity]].
  - subst net. induction calls as [|c calls IH] using rev_ind; [done|].
    rewrite foldl_app. simpl. by apply call_invariant.
  - unfold Api.getSocket at 1. destruct (Api.current net) as [sock|] eqn:Hcur.
    + split; [done|]. unfold Api.getSocket. by rewrite Hcur.
    + split; reflexivity.
Qed.

(** ** components/Toast.tsx: a toast goes away by itself *)

Lemma fold_without_subset (t : Z) (tms : list (Z * string))
    (acc : list ToastProvider.Toast) (x : ToastProvider.Toast) :
  x ∈ foldl (λ acc tm, if tm.1 <=? t then ToastProvider.without tm.2 acc else acc) acc tms →
  x ∈ acc.
Proof.
  revert acc. induction tms as [|tm tms IH]; intros acc; simpl; [done|].
  intros Hin. apply IH in Hin. destruct (tm.1 <=? t); [|done].
  by apply (list_elem_of_filter (λ y, ToastProvider.id y ≠ tm.2)) in Hin as [_ ?].
Qed.

Lemma fold_without_removed (t : Z) (tms : list (Z * string))
    (acc : list ToastProvider.Toast) (x : ToastProvider.Toast) (d : Z) :
  (d, ToastProvider.id x) ∈ tms → d <= t →
  x ∉ foldl (λ acc tm, if tm.1 <=? t then ToastProvider.without tm.2 acc else acc) acc tms.
Proof.
  revert acc. induction tms as [|tm tms IH]; intros acc Hin Hd; simpl.
  - by apply elem_of_nil in Hin.
  - apply elem_of_cons in Hin as [<-|Hin]; [|by apply IH].
    simpl. rewrite (proj2 (Z.leb_le d t) Hd). intros Hx.
    apply fold_without_subset in Hx.
    by apply (list_elem_of_filter (λ y, ToastProvider.id y ≠ ToastProvider.id x)) in Hx
      as [? _].
Qed.

Lemma fold_without_kept (t : Z) (tms : list (Z * string))
    (acc : list ToastProvider.Toast) (x : ToastProvider.Toast) :
  x ∈ acc →
  (∀ tm, tm ∈ tms → tm.1 <= t → tm.2 ≠ ToastProvider.id x) →
  x ∈ foldl (λ acc tm, if tm.1 <=? t then ToastProvider.without tm.2 acc else acc) acc tms.
Proof.
  revert acc. induction tms as [|tm tms IH]; intros acc Hin Hother; simpl; [done|].
  apply IH.
  - destruct (tm.1 <=? t) eqn:Hdue; [|done].
    apply (list_elem_of_filter (λ y, ToastProvider.id y ≠ tm.2)). split; [|done].
    intros Heq. apply (Hother tm); [by left | by apply Z.leb_le | done].
  - intros tm' Hin'. apply Hother. by right.
Qed.

(** X16. A toast is appended after the toasts already shown. With nothing
    else happening it is still shown at any time before 3000 ms, unless an
    older pending removal names the same random id, and 3000 ms after it was
    shown no toast with its id is left. Time passing never adds a toast, and
    the close button removes the toasts of its id and no other. *)
Theorem toast_goes_away (message : string) (type : Toast.kind) (random36 : string)
    (st : ToastProvider.State) :
  let shown := {| ToastProvider.id := JS.substr 2 9 random36;
                  ToastProvider.message := message;
                  ToastProvider.type := type |} in
  let st1 := ToastProvider.showToast message type random36 st in
  ToastProvider.toasts st1 = ToastProvider.toasts st ++ [shown] ∧
  (∀ ms, ms < 3000 →
         (∀ tm, tm ∈ ToastProvider.pending st → tm.2 ≠ ToastProvider.id shown) →
         shown ∈ ToastProvider.toasts (ToastProvider.elapse ms st1)) ∧
  (∀ ms x, 3000 <= ms →
           x ∈ ToastProvider.toasts (ToastProvider.elapse ms st1) →
           ToastProvider.id x ≠ ToastProvider.id shown) ∧
  (∀ ms x, x ∈ ToastProvider.toasts (ToastProvider.elapse ms st1) →
           x ∈ ToastProvider.toasts st1) ∧
  (∀ id_ x, x ∈ ToastProvider.toasts (ToastProvider.removeToast id_ st1) ↔
            x ∈ ToastProvider.toasts st1 ∧ ToastProvider.id x ≠ id_).
Proof.
  intros shown st1. split; [reflexivity|]. split; [|split; [|split]].
  - intros ms Hms Hfresh. simpl. apply fold_without_kept; [apply elem_of_snoc|].
    intros tm Hin Hdue. apply elem_of_app in Hin as [Hin|Hin]; [by apply Hfresh|].
    apply list_elem_of_singleton in Hin as ->. simpl in Hdue. lia.
  - intros ms x Hms Hin Heq. simpl in Hin. revert Hin.
    apply (fold_without_removed _ _ _ x (ToastProvider.now st + 3000)); [|lia].
    rewrite Heq. apply elem_of_snoc.
  - intros ms x Hin. simpl in Hin. by apply fold_without_subset in Hin.
  - intros id_ x. simpl. unfold ToastProvider.without.
    rewrite (list_elem_of_filter (λ y, ToastProvider.id y ≠ id_)). tauto.
Qed.

(** ** The voice recorder *)

(** X17. The recorder takes the first supported container among mp4, webm
    with opus, webm and ogg, and none (the empty string) only when none of the
    four is supported. The upload of the recording then gets the extension
    [.m4a] when mp4 is supported, else [.webm] when a webm is or nothing is,
    else [.ogg]; a recording encoded as [audio/wav] gets [.wav]. *)
Theorem recording_container_and_extension (isTypeSupported : string → bool) :
  let mimeType := Recorder.getSupportedMimeType isTypeSupported in
  (mimeType = "" ↔ ∀ ty, ty ∈ Recorder.types → isTypeSupported ty = false) ∧
  (mimeType ≠ "" → mimeType ∈ Recorder.types ∧ isTypeSupported mimeType = true) ∧
  Recorder.extension (Recorder.blobType mimeType) =
    (if isTypeSupported "audio/mp4" then ".m4a"
     else if isTypeSupported "audio/webm;codecs=opus" || isTypeSupported "audio/webm"
          then ".webm"
     else if isTypeSupported "audio/ogg" then ".ogg"
     else ".webm") ∧
  Recorder.extension "audio/wav" = ".wav".
Proof.
  intros mimeType. subst mimeType. unfold Recorder.getSupportedMimeType, Recorder.types.
  assert (∀ ty, ty ∈ ["audio/mp4"; "audio/webm;codecs=opus"; "audio/webm"; "audio/ogg"]
                ↔ ty = "audio/mp4" ∨ ty = "audio/webm;codecs=opus"
                  ∨ ty = "audio/webm" ∨ ty = "audio/ogg") as Hmem.
  { intros ty. rewrite !elem_of_cons, elem_of_nil. tauto. }
  simpl List.find.
  destruct (isTypeSupported "audio/mp4") eqn:H1;
    [|destruct (isTypeSupported "audio/webm;codecs=opus") eqn:H2;
      [|destruct (isTypeSupported "audio/webm") eqn:H3;
        [|destruct (isTypeSupported "audio/ogg") eqn:H4]]];
    cbn [default orb];
    (split; [split|split; [|split; reflexivity]]).
  all: try discriminate.
  all: try (intros _; split; [apply Hmem; tauto | done]).
  all: try (intros Hall; exfalso;
            pose proof (Hall "audio/mp4" ltac:(apply Hmem; tauto));
            pose proof (Hall "audio/webm;codecs=opus" ltac:(apply Hmem; tauto));
            pose proof (Hall "audio/webm" ltac:(apply Hmem; tauto));
            pose proof (Hall "audio/ogg" ltac:(apply Hmem; tauto));
            congruence).
  - intros _ ty Hty. apply Hmem in Hty as [->|[->|[->| ->]]]; done.
  - done.
  - intros Hne. by destruct Hne.
Qed.

Section Flatten.

Context {Sample : Type} (zero : Sample).

(** The loop of [flattenArray] writes the chunks one after the other from
    [offset] on, or throws when they do not fit. *)
Lemma flattenInto_spec (channelBuffer : list (list Sample)) :
  ∀ (result : list Sample) (offset : nat),
    (offset ≤ length result)%nat →
    Recorder.flattenInto Sample result offset channelBuffer =
    if bool_decide (offset + length (concat channelBuffer) ≤ length result)%nat
    then Some (take offset result ++ concat channelBuffer
               ++ drop (offset + length (concat channelBuffer)) result)
    else None.
Proof.
  induction channelBuffer as [|buffer rest IH]; intros result offset Hoff; simpl.
  - rewrite bool_decide_eq_true_2 by lia.
    by rewrite Nat.add_0_r, take_drop.
  - rewrite length_app. unfold Recorder.set.
    destruct (bool_decide_reflect (offset + length buffer ≤ length result)%nat)
      as [Hfit|Hover]; simpl.
    + set (result' := take offset result ++ buffer ++ drop (offset + length buffer) result).
      assert (length result' = length result) as Hlen.
      { subst result'. rewrite !length_app, length_take_le, length_drop by lia. lia. }
      rewrite IH by lia. rewrite Hlen.
      replace (offset + (length buffer + length (concat rest)))%nat
        with (offset + length buffer + length (concat rest))%nat by lia.
      destruct (bool_decide _); [|done]. f_equal.
      assert (take (offset + length buffer) result' = take offset result ++ buffer) as ->.
      { subst result'. rewrite app_assoc.
        apply take_app_length'. rewrite length_app, length_take_le by lia. lia. }
      assert (drop (offset + length buffer + length (concat rest)) result'
              = drop (offset + length buffer + length (concat rest)) result) as ->.
      { subst result'. rewrite app_assoc, drop_app_ge;
          rewrite length_app, length_take_le by lia; [|lia].
        rewrite drop_drop. f_equal. lia. }
      by rewrite <- !app_assoc.
    + rewrite bool_decide_eq_false_2; [done | lia].
Qed.

(** X18. [flattenArray] returns the recorded chunks one after the other,
    followed by zeros up to [recordingLength], when the chunks hold at most
    [recordingLength] samples (exactly the chunks when they hold exactly that
    many), and throws when they hold more; what it returns always has
    [recordingLength] samples. *)
Theorem flattenArray_concatenates (channelBuffer : list (list Sample))
    (recordingLength : nat) :
  let total := length (concat channelBuffer) in
  Recorder.flattenArray Sample zero channelBuffer recordingLength =
    (if bool_decide (total ≤ recordingLength)%nat
     then Some (concat channelBuffer ++ replicate (recordingLength - total) zero)
     else None) ∧
  (total = recordingLength →
   Recorder.flattenArray Sample zero channelBuffer recordingLength
   = Some (concat channelBuffer)) ∧
  (∀ result, Recorder.flattenArray Sample zero channelBuffer recordingLength = Some result →
             length result = recordingLength).
Proof.
  intros total.
  assert (Recorder.flattenArray Sample zero channelBuffer recordingLength =
          if bool_decide (total ≤ recordingLength)%nat
          then Some (concat channelBuffer ++ replicate (recordingLength - total) zero)
          else None) as Hspec.
  { unfold Recorder.flattenArray. rewrite flattenInto_spec by lia.
    rewrite length_replicate. simpl.
    destruct (bool_decide _); [|done].
    by rewrite drop_replicate. }
  split; [exact Hspec|]. split.
  - intros Htotal. rewrite Hspec, bool_decide_eq_true_2 by lia.
    by rewrite Htotal, Nat.sub_diag, app_nil_r.
  - intros result. rewrite Hspec.
    destruct (bool_decide_reflect (total ≤ recordingLength)%nat); [|done].
    intros [= <-]. rewrite length_app, length_replicate. subst total. lia.
Qed.

End Flatten.

(** X18, run: two chunks of two samples for a recording of four. *)
Lemma flattenArray_concatenates_run :
  Recorder.flattenArray Z 0 [[1; 2]; [3; 4]] 4 = Some [1; 2; 3; 4].
Proof.
  destruct (flattenArray_concatenates 0 [[1; 2]; [3; 4]] 4) as (_ & H & _).
  by apply H.
Defined.

(** ** A send, its confirmation and its echo *)

Lemma closeInTime_sym getTime a b : closeInTime getTime a b → closeInTime getTime b a.
Proof.
  intros (t1 & t2 & H1 & H2 & H). exists t2, t1. repeat split; [done..|]. lia.
Qed.

Lemma fmap_unchanged {A} (f : A → A) (l : list A) :
  (∀ x, x ∈ l → f x = x) → f <$> l = l.
Proof.
  intros Hf. induction l as [|x l IH]; [done|]. simpl. f_equal.
  - apply Hf. by left.
  - apply IH. intros y Hy. apply Hf. by right.
Qed.

Section RoundTrip.

Variable user : User.t.
Variable getTime : string → option Z.

(** X19. Alice sends a text while no other send is outstanding (every entry
    of the log has a durable identity). The server's view of that message —
    same sender, content and type, a durable identity the log does not know,
    a timestamp less than 5000 ms from the local one — then reaches the
    client as a send-confirmation, as an echo, or as both in either order. In
    every case the log ends with the entries it had followed by one entry for
    the message, with the durable identity and status [sent]; the event that
    comes second changes nothing. *)
Theorem send_then_confirmation_and_echo (s : Chat) (chat : Friend.t)
    (sentAt random36 durable : string) (echo : Message) :
  activeChat s = Some chat →
  socket s = true →
  JS.blank (inputText s) = false →
  (∀ m, m ∈ messages s → (20 ≤ idLength m)%nat) →
  ¬ known echo (messages s) →
  _id echo = Some durable → (20 ≤ String.length durable)%nat →
  fromUserId echo = User.userId user →
  toUserId echo = Friend.userId chat →
  content echo = inputText s →
  messageType echo = text →
  closeInTime getTime sentAt (timestamp echo) →
  let placeholder := textMessage user chat (inputText s) sentAt random36 in
  let s1 := sendMessage user sentAt random36 s in
  let echoed := handleReceiveMessage user getTime echo s1 in
  let confirmed_ := handleMessageSent user getTime echo s1 in
  messages echoed = messages s ++ [confirmed placeholder echo] ∧
  messages confirmed_ = messages s ++ [acknowledged placeholder echo] ∧
  messages (handleMessageSent user getTime echo echoed) = messages echoed ∧
  messages (handleReceiveMessage user getTime echo confirmed_) = messages confirmed_ ∧
  _id (confirmed placeholder echo) = Some durable ∧
  _id (acknowledged placeholder echo) = Some durable ∧
  status (confirmed placeholder echo) = Some sent ∧
  status (acknowledged placeholder echo) = Some sent.
Proof using Type.
  intros Hchat Hsock Hblank Hdur Hnew Hid Hlen Hfrom Hto Hcontent Htype Hclose
    placeholder s1 echoed confirmed_.
  assert (messages s1 = messages s ++ [placeholder]) as Hs1.
  { subst s1. unfold sendMessage. rewrite Hchat, Hblank, Hsock. simpl.
    by rewrite messages_clearSenderTimeout. }
  assert (activeChat s1 = Some chat) as Hchat1.
  { subst s1. unfold sendMessage. rewrite Hchat, Hblank, Hsock. simpl.
    by rewrite activeChat_clearSenderTimeout. }
  assert (idLength placeholder < 20)%nat as Hshort.
  { pose proof (substr_length 2 9 random36). unfold placeholder, idLength. simpl.
    unfold tempId. lia. }
  assert (∀ x, messages (handleReceiveMessage user getTime echo x)
               = if activeChat x is Some c
                 then if bool_decide (fromUserId echo = Friend.userId c)
                         || bool_decide (toUserId echo = Friend.userId c)
                      then receiveMessage (User.userId user) getTime echo (messages x)
                      else messages x
                 else messages x) as Hrecv.
  { intros x. unfold handleReceiveMessage. destruct (activeChat x) as [c|]; [|done].
    destruct (_ || _); [|done].
    destruct (bool_decide (fromUserId echo = Friend.userId c)); simpl;
      by rewrite messages_clearReceiverTimeout. }
  assert (bool_decide (fromUserId echo = Friend.userId chat)
          || bool_decide (toUserId echo = Friend.userId chat) = true) as Hmine.
  { apply orb_true_iff. right. by apply bool_decide_eq_true. }
  assert (messages echoed = messages s ++ [confirmed placeholder echo]) as Hechoed.
  { subst echoed. rewrite Hrecv, Hchat1, Hmine, Hs1.
    rewrite (receiveMessage_merge (User.userId user) getTime
               (messages s ++ [placeholder]) echo placeholder (length (messages s))).
    - rewrite insert_app_r_alt by lia. by rewrite Nat.sub_diag.
    - done.
    - intros (m & Hin & Hm). apply elem_of_app in Hin as [Hin|Hin].
      + apply Hnew. by exists m.
      + apply list_elem_of_singleton in Hin as ->.
        rewrite Hid in Hm. unfold placeholder in Hm. simpl in Hm.
        injection Hm as Hm. pose proof (substr_length 2 9 random36) as Hsub.
        unfold tempId in Hm. rewrite Hm in Hsub. lia.
    - rewrite lookup_app_r by lia. by rewrite Nat.sub_diag.
    - by repeat split.
    - intros j m Hj Hm [Hcand _]. rewrite lookup_app_l in Hm by lia.
      assert (m ∈ messages s) as Hin by (apply list_elem_of_lookup; eauto).
      specialize (Hdur m Hin). lia.
    - done. }
  assert (∀ l, (∀ m, m ∈ l → (20 ≤ idLength m)%nat) →
               messageSent (User.userId user) getTime echo l = l) as Hsent.
  { intros l Hl. unfold messageSent. apply fmap_unchanged. intros m Hin.
    destruct (sentMatches _ _ _ m) eqn:Hmatch; [|done].
    unfold sentMatches in Hmatch.
    apply andb_true_iff in Hmatch as [Hmatch _].
    apply andb_true_iff in Hmatch as [_ Hm]. apply bool_decide_eq_true in Hm.
    specialize (Hl m Hin). lia. }
  assert (messages confirmed_ = messages s ++ [acknowledged placeholder echo]) as Hconf.
  { subst confirmed_. unfold handleMessageSent. simpl. rewrite Hs1.
    unfold messageSent at 1. rewrite fmap_app. f_equal.
    - apply (Hsent (messages s) Hdur).
    - simpl. unfold sentMatches.
      rewrite (bool_decide_eq_true_2 (fromUserId placeholder = User.userId user)) by done.
      rewrite (bool_decide_eq_true_2 (content placeholder = content echo)) by done.
      rewrite (bool_decide_eq_true_2 (idLength placeholder < 20)%nat) by done.
      rewrite (proj2 (within5000_closeInTime getTime _ _)); [done|].
      by apply closeInTime_sym. }
  split; [exact Hechoed|]. split; [exact Hconf|]. split; [|split].
  - unfold handleMessageSent. simpl. apply Hsent. intros m Hin.
    rewrite Hechoed in Hin. apply elem_of_app in Hin as [Hin|Hin]; [by apply Hdur|].
    apply list_elem_of_singleton in Hin as ->. unfold idLength. simpl. by rewrite Hid.
  - rewrite Hrecv.
    assert (activeChat confirmed_ = Some chat) as -> by done.
    rewrite Hmine. unfold receiveMessage.
    assert (JS.some (λ m, bool_decide (_id m = _id echo)) (messages confirmed_) = true)
      as ->; [|done].
    apply known_some. exists (acknowledged placeholder echo). split; [|done].
    rewrite Hconf. apply elem_of_snoc.
  - done.
Qed.

End RoundTrip.

(** X19, run: Alice's "hi" and its echo 200 ms later. *)
Lemma send_then_confirmation_and_echo_run :
  let s1 := sendMessage alice "2024-03-01T12:00:00.000Z" "0.x7f3a2b1c" hiTyped in
  let echoed := handleReceiveMessage alice JS.isoTime echo1 s1 in
  _id <$> messages echoed = [Some "65e1c0a4f1d2b3a4c5d6e7f8"] ∧
  messages (handleMessageSent alice JS.isoTime echo1 echoed) = messages echoed.
Proof.
  destruct (send_then_confirmation_and_echo alice JS.isoTime hiTyped bob
              "2024-03-01T12:00:00.000Z" "0.x7f3a2b1c" "65e1c0a4f1d2b3a4c5d6e7f8" echo1)
    as (H1 & _ & H3 & _).
  - reflexivity.
  - reflexivity.
  - reflexivity.
  - intros m Hin. vm_compute in Hin. by apply elem_of_nil in Hin.
  - intros H. apply known_some in H. vm_compute in H. discriminate.
  - reflexivity.
  - vm_compute. lia.
  - reflexivity.
  - reflexivity.
  - reflexivity.
  - reflexivity.
  - apply (proj1 (within5000_closeInTime JS.isoTime _ _)). reflexivity.
  - split; [by rewrite H1 | exact H3].
Defined.
